(** * EBPG beam-drift log plotter (drift_gui.py): model and properties

    The script reads an EBPG logfile, scans it line by line with four
    regular expressions, reconstructs the timestamps of the drift samples,
    normalises the calibration positions against the wafer centre and
    plots both.

    Numbers are modelled as the script has them: a Python [float] is an
    IEEE binary64 number, here Rocq's primitive [float]; a Python [int] is
    a [Z].  The regular-expression engine, [float()] and [int()] on
    captured text and matplotlib are library code: a line of the log is
    given together with the outcome of the four searches on it and of the
    conversions that can fail, and plot calls are recorded as events.

    Text is a [string]: a sequence of characters with code points below
    256.  In that range the decimal digits of [\d], [int()] and
    [strptime] are the digits 0 to 9, and the white space of [strip()] is
    what [is_space] lists; logs with characters beyond it are not
    covered. *)

From Stdlib Require Import ZArith List Bool Lia String Ascii Permutation Sorted.
From Stdlib Require Import Floats.
Import ListNotations.

Set Warnings "-inexact-float".
Local Open Scope Z_scope.

(** ** Exceptions

    [sys.exit()] raises [SystemExit]; the others are the uncaught errors
    the script can run into. *)

Inductive exn : Type :=
| SystemExit
| ValueError
| NameError
| IndexError
| OverflowError
| TypeError
| UnicodeDecodeError.

(** ** Python floats *)

Module PyFloat.

Definition is_nan (x : float) : bool := negb (PrimFloat.eqb x x).

(** [abs] is the key of [min]/[max]; Python compares the keys with [<]
    for [min] and with [>] for [max]. *)
Definition key_lt (x y : float) : bool := PrimFloat.ltb (abs x) (abs y).
Definition key_gt (x y : float) : bool := PrimFloat.ltb (abs y) (abs x).
Definition key_le (x y : float) : bool := PrimFloat.leb (abs x) (abs y).

(** [float(n)] for an integer [n]; exact below 2^53 in magnitude. *)
Definition of_Z (z : Z) : float :=
  if z <? 0 then PrimFloat.opp (PrimFloat.of_uint63 (Uint63.of_Z (- z)))
  else PrimFloat.of_uint63 (Uint63.of_Z z).

End PyFloat.

(** ** [datetime]

    A naive [datetime] is represented by its proleptic Gregorian ordinal
    ([toordinal()]) and the seconds since midnight: comparison and
    [timedelta] arithmetic of CPython's [datetime] are defined through
    these two numbers. *)

Module Datetime.

Record datetime : Type := mk { ordinal : Z; seconds : Z }.

Definition MAXORDINAL : Z := 3652059.

Definition is_leap (year : Z) : bool :=
  (year mod 4 =? 0) && (negb (year mod 100 =? 0) || (year mod 400 =? 0)).

Definition days_before_year (year : Z) : Z :=
  let y := year - 1 in y * 365 + y / 4 - y / 100 + y / 400.

Definition days_in_month (year month : Z) : Z :=
  if month =? 2 then (if is_leap year then 29 else 28)
  else if (month =? 4) || (month =? 6) || (month =? 9) || (month =? 11)
       then 30 else 31.

Definition DAYS_BEFORE_MONTH (month : Z) : Z :=
  nth (Z.to_nat month)
      [0; 0; 31; 59; 90; 120; 151; 181; 212; 243; 273; 304; 334] 0.

Definition days_before_month (year month : Z) : Z :=
  DAYS_BEFORE_MONTH month + (if (2 <? month) && is_leap year then 1 else 0).

Definition ymd2ord (year month day : Z) : Z :=
  days_before_year year + days_before_month year month + day.

(** [a < b] *)
Definition lt (a b : datetime) : bool :=
  (ordinal a <? ordinal b)
  || ((ordinal a =? ordinal b) && (seconds a <? seconds b)).

(** [t + timedelta(days=n)] *)
Definition add_days (t : datetime) (n : Z) : exn + datetime :=
  let o := ordinal t + n in
  if (1 <=? o) && (o <=? MAXORDINAL) then inr (mk o (seconds t))
  else inl OverflowError.

(** [(a - b).total_seconds()], an integer number of seconds here. *)
Definition total_seconds (a b : datetime) : Z :=
  (ordinal a - ordinal b) * 86400 + (seconds a - seconds b).

End Datetime.

Import Datetime.

(** ** [datetime.strptime(text, '%Y-%b-%d %H:%M:%S')]

    The text is [f'{dyear}-{dmonth}-{dday} {hour}:{minute}:00'].  The
    regular expressions that captured the fields make [dyear] four digits,
    [dmonth] three letters, [dday] one or two digits and [hour], [minute]
    one or more digits.  [strptime] accepts one or two digits for [%d],
    [%H] and [%M], within 1..31, 0..23 and 0..59, a month abbreviation in
    any case (C locale), and then builds the date, which fails for year 0
    and for a day past the end of the month. *)

Definition digit_value (c : ascii) : option Z :=
  let n := Z.of_N (N_of_ascii c) in
  if (48 <=? n) && (n <=? 57) then Some (n - 48) else None.

Fixpoint digits_value (acc : Z) (s : string) : option Z :=
  match s with
  | EmptyString => Some acc
  | String c rest =>
      match digit_value c with
      | Some d => digits_value (10 * acc + d) rest
      | None => None
      end
  end.

(** An unsigned decimal field of at most [width] digits. *)
Definition field (width : nat) (s : string) : option Z :=
  if (Nat.ltb 0 (String.length s)) && (Nat.leb (String.length s) width)
  then digits_value 0 s else None.

Definition lower (c : ascii) : ascii :=
  let n := N_of_ascii c in
  if (N.leb 65 n) && (N.leb n 90) then ascii_of_N (n + 32) else c.

Fixpoint lowercase (s : string) : string :=
  match s with
  | EmptyString => EmptyString
  | String c rest => String (lower c) (lowercase rest)
  end.

Definition month_abbr : list (string * Z) :=
  [("jan", 1); ("feb", 2); ("mar", 3); ("apr", 4); ("may", 5); ("jun", 6);
   ("jul", 7); ("aug", 8); ("sep", 9); ("oct", 10); ("nov", 11); ("dec", 12)]%string.

Fixpoint lookup (key : string) (table : list (string * Z)) : option Z :=
  match table with
  | [] => None
  | (k, v) :: rest => if String.eqb key k then Some v else lookup key rest
  end.

Definition month_of_abbr (s : string) : option Z :=
  lookup (lowercase s) month_abbr.

Definition strptime (dyear dmonth dday hour minute : string) : exn + datetime :=
  match field 4 dyear, month_of_abbr dmonth, field 2 dday,
        field 2 hour, field 2 minute with
  | Some y, Some m, Some d, Some H, Some M =>
      if (String.length dyear =? 4)%nat
         && (1 <=? d) && (d <=? 31) && (H <=? 23) && (M <=? 59)
         && (1 <=? y) && (d <=? days_in_month y m)
      then inr (Datetime.mk (ymd2ord y m d) (H * 3600 + M * 60 + 0))
      else inl ValueError
  | _, _, _, _, _ => inl ValueError
  end.

(** ** Lines of the log and what the four patterns capture *)

(** [regex_wafer_centre]: the four groups after [float(...)]; [None] where
    [float] raises [ValueError] (the class [[0-9.-]+] also matches text
    such as [1.2.3] or [-]). *)
Record centre_groups : Type := {
  centre_x_um : option float;
  centre_y_um : option float;
  size_x_um : option float;
  size_y_um : option float
}.

(** [regex_date]: the six groups, as text. *)
Record date_groups : Type := {
  dweek : string; dmonth : string; dday : string;
  dtime : string; dtzone : string; dyear : string
}.

(** [regex]: hour and minute as text, the two rates after [float(...)]
    (which cannot fail on [-?\d+\.?\d*]); the two [_nm] fields are dropped. *)
Record drift_groups : Type := {
  hour : string; minute : string; dxdt : float; dydt : float
}.

(** A calibration block [(block_number, x_coord, y_coord)]. *)
Definition block : Type := Z * float * float.

(** [regex_drft_pos]: the block number after [int(...)], [None] where
    [int] raises [ValueError] (the group [\d+] has no upper length, and
    [int] refuses a text of more than 4300 digits); the two coordinates
    after [float(...)], which cannot fail on [[-+]?[0-9]*\.?[0-9]+]. *)
Record pos_groups : Type := {
  block_number : option Z;
  x_coord : float;
  y_coord : float
}.

Record line : Type := {
  centrematch : option centre_groups;
  datematch : option date_groups;
  drift_match : option drift_groups;
  driftpos_match : option pos_groups
}.

(** The file as the script reads it: once whole ([path.splitlines()]) and
    once for its first line ([file.readline()]). *)
Record logfile : Type := {
  file_path : string;
  first_line : string;
  lines : list line
}.

(** What the file dialog and the first reading of the file come to:
    the dialog is cancelled ([askopenfilename] returns the empty string);
    or a file is chosen that begins with the line [first_line] and holds,
    somewhere, bytes that the text codec refuses; or a file is chosen that
    decodes as a whole. *)
Inductive selection : Type :=
| Cancelled
| Undecodable (file_path first_line : string)
| Readable (f : logfile).

(** ** Output: console lines and plot calls *)

Inductive message : Type :=
| InvalidLogfile      (* "Error: This is not a valid EBPG logfile" *)
| Centre (x y : float)
| Size (x y : float)
| NoDriftPoints       (* "Error: Log file is correct, but it contains no drift calibration points" *)
| RelativeHeader      (* 'Relative Drift Calibration Absolution Positions' *)
| Relative (rel_x rel_y : float)
| Summary (file_path : string) (min_dx max_dx min_dy max_dy : float).

Inductive plot_call : Type :=
| Figure
| Xlim (lo hi : float)
| Ylim (lo hi : float)
| Scatter (x y : float)
| ScatterCentre
| Xlabel (text : string)
| Ylabel (text : string)
| Title (text : string)
| Legend
| Grid
| Show
| Series (xs ys : list float) (label : string)
| TextBox (min_dx max_dx min_dy max_dy : float)
| StartTitle (run_date run_start_time : option string).

Inductive event : Type :=
| Print (m : message)
| Plot (c : plot_call).

Definition is_plot (e : event) : bool :=
  match e with Plot _ => true | Print _ => false end.

(** ** Running the script: output so far, then an exception or a value *)

Definition M (A : Type) : Type := list event * (exn + A).

Definition ret {A} (a : A) : M A := ([], inr a).
Definition raise {A} (e : exn) : M A := ([], inl e).
Definition emit (ev : event) : M unit := ([ev], inr tt).
Definition emit_all (evs : list event) : M unit := (evs, inr tt).
Definition lift {A} (r : exn + A) : M A := ([], r).
Definition bind {A B} (m : M A) (k : A -> M B) : M B :=
  match m with
  | (out, inl e) => (out, inl e)
  | (out, inr a) => let (out', r) := k a in (out ++ out', r)
  end.

Notation "x <- m ;; k" := (bind m (fun x => k))
  (at level 61, m at next level, right associativity).
Notation "m ;;; k" := (bind m (fun _ => k))
  (at level 61, right associativity).

(** ** The variables of the scanning loop *)

Record state : Type := {
  timestamps : list datetime;
  dxdt_values : list float;
  dydt_values : list float;
  drift_pos_data : list block;
  wafer_centre : list float;
  (** [size_x], [size_y]: unbound until a wafer-centre line is seen *)
  size_xy : option (float * float);
  run_date : option string;
  run_start_time : option string;
  (** [dyear], [dmonth], [dday] (with the other groups of the last date
      match): unbound until a date line is seen *)
  date_vars : option date_groups;
  previous_timestamp : option datetime;
  drift_data_found : bool
}.

Definition initial : state := {|
  timestamps := []; dxdt_values := []; dydt_values := [];
  drift_pos_data := []; wafer_centre := []; size_xy := None;
  run_date := None; run_start_time := None; date_vars := None;
  previous_timestamp := None; drift_data_found := false
|}.

Definition set_centre (s : state) (c : list float) (sz : float * float) : state := {|
  timestamps := timestamps s; dxdt_values := dxdt_values s;
  dydt_values := dydt_values s; drift_pos_data := drift_pos_data s;
  wafer_centre := c; size_xy := Some sz;
  run_date := run_date s; run_start_time := run_start_time s;
  date_vars := date_vars s; previous_timestamp := previous_timestamp s;
  drift_data_found := drift_data_found s
|}.

Definition set_date (s : state) (g : date_groups) : state := {|
  timestamps := timestamps s; dxdt_values := dxdt_values s;
  dydt_values := dydt_values s; drift_pos_data := drift_pos_data s;
  wafer_centre := wafer_centre s; size_xy := size_xy s;
  run_date :=
    match run_date s with
    | None => Some (dyear g ++ "-" ++ dmonth g ++ "-" ++ dday g)%string
    | Some d => Some d
    end;
  run_start_time :=
    match run_date s with
    | None => Some (dtime g)
    | Some _ => run_start_time s
    end;
  date_vars := Some g; previous_timestamp := previous_timestamp s;
  drift_data_found := drift_data_found s
|}.

Definition add_sample (s : state) (t : datetime) (dx dy : float) : state := {|
  timestamps := timestamps s ++ [t]; dxdt_values := dxdt_values s ++ [dx];
  dydt_values := dydt_values s ++ [dy]; drift_pos_data := drift_pos_data s;
  wafer_centre := wafer_centre s; size_xy := size_xy s;
  run_date := run_date s; run_start_time := run_start_time s;
  date_vars := date_vars s; previous_timestamp := Some t;
  drift_data_found := true
|}.

Definition add_block (s : state) (b : block) : state := {|
  timestamps := timestamps s; dxdt_values := dxdt_values s;
  dydt_values := dydt_values s; drift_pos_data := drift_pos_data s ++ [b];
  wafer_centre := wafer_centre s; size_xy := size_xy s;
  run_date := run_date s; run_start_time := run_start_time s;
  date_vars := date_vars s; previous_timestamp := previous_timestamp s;
  drift_data_found := drift_data_found s
|}.

(** ** One iteration of [for line in path.splitlines()] *)

(** [float(centrematch.group(i)) / 1000] *)
Definition um_to_mm (g : option float) : M float :=
  match g with
  | Some v => ret (v / 1000)%float
  | None => raise ValueError
  end.

Definition scan_centre (s : state) (l : line) : M state :=
  match centrematch l with
  | Some g =>
      centre_x <- um_to_mm (centre_x_um g) ;;
      centre_y <- um_to_mm (centre_y_um g) ;;
      size_x <- um_to_mm (size_x_um g) ;;
      size_y <- um_to_mm (size_y_um g) ;;
      emit (Print (Centre centre_x centre_y)) ;;;
      emit (Print (Size size_x size_y)) ;;;
      ret (set_centre s [centre_x; centre_y] (size_x, size_y))
  | None => ret s
  end.

Definition scan_date (s : state) (l : line) : state :=
  match datematch l with
  | Some g => set_date s g
  | None => s
  end.

(** The candidate timestamp of a drift line, from [dyear], [dmonth],
    [dday] as currently bound. *)
Definition candidate (vars : option date_groups) (g : drift_groups) : exn + datetime :=
  match vars with
  | None => inl NameError
  | Some d => strptime (dyear d) (dmonth d) (dday d) (hour g) (minute g)
  end.

(** [if previous_timestamp and timestamp < previous_timestamp:
       timestamp += timedelta(days=1)] *)
Definition day_transition (previous : option datetime) (timestamp : datetime)
  : exn + datetime :=
  match previous with
  | Some p => if Datetime.lt timestamp p then add_days timestamp 1 else inr timestamp
  | None => inr timestamp
  end.

Definition scan_drift (s : state) (l : line) : M state :=
  match drift_match l with
  | Some g =>
      timestamp <- lift (candidate (date_vars s) g) ;;
      timestamp <- lift (day_transition (previous_timestamp s) timestamp) ;;
      ret (add_sample s timestamp (dxdt g) (dydt g))
  | None => ret s
  end.

Definition scan_block (s : state) (l : line) : M state :=
  match driftpos_match l with
  | Some g =>
      match block_number g with
      | Some n => ret (add_block s (n, x_coord g, y_coord g))
      | None => raise ValueError
      end
  | None => ret s
  end.

Definition scan_line (s : state) (l : line) : M state :=
  s <- scan_centre s l ;;
  s <- scan_drift (scan_date s l) l ;;
  scan_block s l.

Fixpoint scan (s : state) (ls : list line) : M state :=
  match ls with
  | [] => ret s
  | l :: rest => s <- scan_line s l ;; scan s rest
  end.

(** ** [sorted(..., key=lambda x: (x[0], x[1], x[2]))]

    Tuples compare lexicographically: the first position where the items
    are not [==] decides, by [<]. *)

Definition key_lt (a b : block) : bool :=
  let '(n1, x1, y1) := a in
  let '(n2, x2, y2) := b in
  if negb (n1 =? n2) then n1 <? n2
  else if negb (PrimFloat.eqb x1 x2) then PrimFloat.ltb x1 x2
  else if negb (PrimFloat.eqb y1 y2) then PrimFloat.ltb y1 y2
  else false.

(** [sorted] is a stable sort that only asks [<] of the keys.  On keys that
    are totally preordered (every float here but NaN) all stable sorts
    agree; it is modelled by stable insertion. *)

Fixpoint insert (x : block) (l : list block) : list block :=
  match l with
  | [] => [x]
  | y :: rest => if key_lt y x then y :: insert x rest else x :: y :: rest
  end.

Fixpoint sorted (l : list block) : list block :=
  match l with
  | [] => []
  | x :: rest => insert x (sorted rest)
  end.

(** ** Position normalisation *)

Definition index (l : list float) (i : nat) : exn + float :=
  match nth_error l i with
  | Some v => inr v
  | None => inl IndexError
  end.

Fixpoint relative_drift_pos_data (wafer_centre : list float)
         (sorted_drift_pos_data : list block) : exn + list block :=
  match sorted_drift_pos_data with
  | [] => inr []
  | (block_number, x_coord, y_coord) :: rest =>
      match index wafer_centre 0, index wafer_centre 1 with
      | inr c0, inr c1 =>
          match relative_drift_pos_data wafer_centre rest with
          | inr tl => inr ((block_number, (x_coord - c0)%float, (y_coord - c1)%float) :: tl)
          | inl e => inl e
          end
      | inl e, _ => inl e
      | _, inl e => inl e
      end
  end.

(** ** [min(xs, key=abs)] and [max(xs, key=abs)]

    CPython's [min_max]: the first item is the initial candidate; a later
    item replaces it only when its key compares strictly smaller (larger)
    than the candidate's key.  An empty argument raises [ValueError]. *)

Fixpoint select_by (better : float -> float -> bool) (best : float)
         (items : list float) : float :=
  match items with
  | [] => best
  | item :: rest =>
      if better item best then select_by better item rest
      else select_by better best rest
  end.

Definition min_key_abs (xs : list float) : exn + float :=
  match xs with
  | [] => inl ValueError
  | x :: rest => inr (select_by PyFloat.key_lt x rest)
  end.

Definition max_key_abs (xs : list float) : exn + float :=
  match xs with
  | [] => inl ValueError
  | x :: rest => inr (select_by PyFloat.key_gt x rest)
  end.

(** ** The header check

    [first_line = file.readline().strip()] and
    ["JMAN LOGFILE" not in first_line]. *)

Definition is_space (c : ascii) : bool :=
  let n := N_of_ascii c in
  (N.eqb n 32) || ((N.leb 9 n) && (N.leb n 13)) || ((N.leb 28 n) && (N.leb n 31))
  || (N.eqb n 133) || (N.eqb n 160).

Fixpoint lstrip (s : string) : string :=
  match s with
  | EmptyString => EmptyString
  | String c rest => if is_space c then lstrip rest else s
  end.

Fixpoint rstrip (s : string) : string :=
  match s with
  | EmptyString => EmptyString
  | String c rest =>
      match rstrip rest with
      | EmptyString => if is_space c then EmptyString else String c EmptyString
      | r => String c r
      end
  end.

Definition strip (s : string) : string := rstrip (lstrip s).

(** [needle in s] *)
Fixpoint contains (needle s : string) : bool :=
  String.prefix needle s
  || match s with
     | EmptyString => false
     | String _ rest => contains needle rest
     end.

(** Patterns that end (start) with a character [strip] leaves alone. *)
Fixpoint ends_nonspace (p : string) : bool :=
  match p with
  | EmptyString => false
  | String a EmptyString => negb (is_space a)
  | String _ p' => ends_nonspace p'
  end.

Definition starts_nonspace (p : string) : bool :=
  match p with
  | EmptyString => false
  | String a _ => negb (is_space a)
  end.

Definition marker : string := "JMAN LOGFILE".

Definition header_ok (f : logfile) : bool := contains marker (strip (first_line f)).

(** ** The script after the scanning loop *)

Definition unbound {A} (v : option A) : M A :=
  match v with
  | Some a => ret a
  | None => raise NameError
  end.

Definition first_timestamp (ts : list datetime) : exn + datetime :=
  match ts with
  | t :: _ => inr t
  | [] => inl IndexError
  end.

Definition minutes_since (start_time t : datetime) : float :=
  (PyFloat.of_Z (total_seconds t start_time) / 60)%float.

(** [print(f"Relative X: {rel_x}, Relative Y: {rel_y}")] and
    [plt.scatter(rel_x, rel_y, ...)] for an item of the relative list. *)
Definition print_relative (b : block) : event :=
  let '(_, rel_x, rel_y) := b in Print (Relative rel_x rel_y).
Definition scatter_relative (b : block) : event :=
  let '(_, rel_x, rel_y) := b in Plot (Scatter rel_x rel_y).

(** [plt.xlim(lo, hi)] and [plt.ylim(lo, hi)]: matplotlib refuses a limit
    that is NaN or infinite with [ValueError]. *)
Definition set_limits (call : float -> float -> plot_call) (lo hi : float) : M unit :=
  if is_finite lo && is_finite hi then emit (Plot (call lo hi))
  else raise ValueError.

Definition plot_positions (s : state) : M unit :=
  let sorted_drift_pos_data := sorted (drift_pos_data s) in
  rel <- lift (relative_drift_pos_data (wafer_centre s) sorted_drift_pos_data) ;;
  emit (Print RelativeHeader) ;;;
  let sorted_relative_drift_pos_data := sorted rel in
  emit_all (map print_relative sorted_relative_drift_pos_data) ;;;
  emit (Plot Figure) ;;;
  sz <- unbound (size_xy s) ;;
  set_limits Xlim (- fst sz / 2)%float (fst sz / 2)%float ;;;
  set_limits Ylim (- snd sz / 2)%float (snd sz / 2)%float ;;;
  emit_all (map scatter_relative sorted_relative_drift_pos_data) ;;;
  emit (Plot ScatterCentre) ;;;
  emit (Plot (Xlabel "X (mm)")) ;;;
  emit (Plot (Ylabel "Y (mm)")) ;;;
  emit (Plot (Title "Drift Calibration Positions Relative to Wafer Center")) ;;;
  emit (Plot Legend) ;;;
  emit (Plot Grid) ;;;
  emit (Plot Show).

Definition plot_drift (file_path : string) (s : state) : M unit :=
  start_time <- lift (first_timestamp (timestamps s)) ;;
  let time_values := map (minutes_since start_time) (timestamps s) in
  min_dx <- lift (min_key_abs (dxdt_values s)) ;;
  max_dx <- lift (max_key_abs (dxdt_values s)) ;;
  min_dy <- lift (min_key_abs (dydt_values s)) ;;
  max_dy <- lift (max_key_abs (dydt_values s)) ;;
  emit (Plot (Series time_values (dxdt_values s) "x drift")) ;;;
  emit (Plot (Series time_values (dydt_values s) "y drift")) ;;;
  emit (Print (Summary file_path min_dx max_dx min_dy max_dy)) ;;;
  emit (Plot (TextBox min_dx max_dx min_dy max_dy)) ;;;
  emit (Plot (Xlabel "Minutes (min)")) ;;;
  emit (Plot (Ylabel "Beam Drift (nm/min)")) ;;;
  emit (Plot (StartTitle (run_date s) (run_start_time s))) ;;;
  emit (Plot Legend) ;;;
  emit (Plot Grid) ;;;
  emit (Plot Show).

(** The script after the loop has left [s]. *)
Definition after_scan (file_path : string) (s : state) : M unit :=
  (if drift_data_found s then ret tt
   else emit (Print NoDriftPoints) ;;; raise SystemExit) ;;;
  plot_positions s ;;;
  plot_drift file_path s.

(** Everything after the header check. *)
Definition process (file_path : string) (ls : list line) : M unit :=
  s <- scan initial ls ;;
  after_scan file_path s.

(** The script from the header check on, for a file that [open_file] has
    read. *)
Definition main (f : logfile) : M unit :=
  if header_ok f then process (file_path f) (lines f)
  else emit (Print InvalidLogfile) ;;; raise SystemExit.

(** [open_file()]: [None] when no file was selected; [file.read()] decodes
    the whole file and raises [UnicodeDecodeError] on bytes the codec
    refuses. *)
Definition open_file (sel : selection) : M (option logfile) :=
  match sel with
  | Cancelled => ret None
  | Undecodable _ _ => raise UnicodeDecodeError
  | Readable f => ret (Some f)
  end.

(** The whole script.  [path, file_path = open_file()] raises [TypeError]
    on [None]. *)
Definition script (sel : selection) : M unit :=
  r <- open_file sel ;;
  match r with
  | Some f => main f
  | None => raise TypeError
  end.

(** ** Vocabulary of the properties *)

(** The first line of the selected file, if a file was selected. *)
Definition selected_first_line (sel : selection) : option string :=
  match sel with
  | Cancelled => None
  | Undecodable _ l => Some l
  | Readable f => Some (first_line f)
  end.

(** The date groups of the last line of [ls] that matches the date
    pattern. *)
Definition most_recent_date (ls : list line) : option date_groups :=
  fold_left (fun acc l => match datematch l with Some g => Some g | None => acc end)
            ls None.

(** The groups of the last line of [ls] that matches the wafer-centre
    pattern, and of the first. *)
Definition last_centre (ls : list line) : option centre_groups :=
  fold_left (fun acc l => match centrematch l with Some g => Some g | None => acc end)
            ls None.

Fixpoint first_centre (ls : list line) : option centre_groups :=
  match ls with
  | [] => None
  | l :: rest =>
      match centrematch l with
      | Some g => Some g
      | None => first_centre rest
      end
  end.

(** The calibration block that an iteration on [l] appends, if any. *)
Definition block_of (l : line) : list block :=
  match driftpos_match l with
  | Some {| block_number := Some n; x_coord := x; y_coord := y |} => [(n, x, y)]
  | _ => []
  end.

(** The calibration blocks of the log, in file order. *)
Definition blocks_of (ls : list line) : list block := flat_map block_of ls.

(** The variables after the calibration-block part of an iteration on [l]
    that went through. *)
Definition with_block (s : state) (l : line) : state :=
  match block_of l with
  | b :: _ => add_block s b
  | [] => s
  end.

(** A calibration-block match whose number [int()] accepts (or no such
    match on the line). *)
Definition int_accepts (l : line) : bool :=
  match driftpos_match l with
  | Some {| block_number := None |} => false
  | _ => true
  end.

Definition matches_drift (l : line) : bool :=
  match drift_match l with Some _ => true | None => false end.
Definition matches_centre (l : line) : bool :=
  match centrematch l with Some _ => true | None => false end.
Definition matches_block (l : line) : bool :=
  match driftpos_match l with Some _ => true | None => false end.

(** The candidate timestamps of the drift lines of [ls], in file order,
    with the date variables as the loop has bound them at each line. *)
Fixpoint candidates (vars : option date_groups) (ls : list line)
  : list (exn + datetime) :=
  match ls with
  | [] => []
  | l :: rest =>
      let vars' := match datematch l with Some g => Some g | None => vars end in
      match drift_match l with
      | Some g => candidate vars' g :: candidates vars' rest
      | None => candidates vars' rest
      end
  end.

(** The day-transition rule applied along a list of candidates, from the
    cursor [previous]. *)
Fixpoint day_transitions (previous : option datetime) (cands : list (exn + datetime))
  : exn + list datetime :=
  match cands with
  | [] => inr []
  | inl e :: _ => inl e
  | inr c :: rest =>
      match day_transition previous c with
      | inl e => inl e
      | inr t =>
          match day_transitions (Some t) rest with
          | inl e => inl e
          | inr ts => inr (t :: ts)
          end
      end
  end.



(** [t] moved on by 24 hours. *)
Definition next_day (t : datetime) : datetime :=
  Datetime.mk (ordinal t + 1) (seconds t).

(** The date variables as an iteration on [l] binds them. *)
Definition date_at (vars : option date_groups) (l : line) : option date_groups :=
  match datematch l with Some g => Some g | None => vars end.

(** How often the time of day decreases from one sample to the next. *)
Fixpoint descents (tods : list Z) : nat :=
  match tods with
  | a :: (b :: _) as rest => Nat.add (if b <? a then 1%nat else 0%nat) (descents rest)
  | _ => O
  end.

(** All samples are dated on day [D]; [tods] are their times of day. *)
Definition single_date_context (D : Z) (tods : list Z) (cands : list (exn + datetime)) : Prop :=
  cands = map (fun tod => inr (Datetime.mk D tod)) tods.

Definition non_decreasing (ts : list datetime) : Prop :=
  Sorted (fun a b => Datetime.lt b a = false) ts.

(** The relative positions printed by a run, in output order. *)
Definition reported (out : list event) : list (float * float) :=
  flat_map (fun e => match e with Print (Relative x y) => [(x, y)] | _ => [] end) out.

Definition plot_calls (out : list event) : list event := filter is_plot out.

(** The two blocks have the same number and [a] lies left of [b], but
    subtracting the centre makes their x coordinates equal and leaves the
    relative y of [b] below that of [a]: the key order of the relative
    blocks is the reverse of the key order of the blocks. *)
Definition swapped (c0 c1 : float) (a b : block) : bool :=
  let '(n1, x1, y1) := a in
  let '(n2, x2, y2) := b in
  (n1 =? n2)
  && PrimFloat.ltb x1 x2
  && PrimFloat.eqb (x1 - c0) (x2 - c0)
  && PrimFloat.ltb (y2 - c1) (y1 - c1).

(** No two blocks of the list are swapped by the translation. *)
Definition swap_free (c0 c1 : float) (l : list block) : bool :=
  forallb (fun a => forallb (fun b => negb (swapped c0 c1 a b)) l) l.

(** [m] is an element of [xs] of smallest (largest) magnitude. *)
Definition smallest_magnitude (m : float) (xs : list float) : Prop :=
  In m xs /\ forall x, In x xs -> PyFloat.key_le m x = true.
Definition largest_magnitude (m : float) (xs : list float) : Prop :=
  In m xs /\ forall x, In x xs -> PyFloat.key_le x m = true.

(** [m] is the earliest element of [xs] of smallest (largest) magnitude:
    everything before it is strictly larger (smaller) in magnitude. *)
Definition earliest_smallest (m : float) (xs : list float) : Prop :=
  exists pre post, xs = pre ++ m :: post
    /\ Forall (fun x => PyFloat.key_lt m x = true) pre
    /\ Forall (fun x => PyFloat.key_le m x = true) post.
Definition earliest_largest (m : float) (xs : list float) : Prop :=
  exists pre post, xs = pre ++ m :: post
    /\ Forall (fun x => PyFloat.key_lt x m = true) pre
    /\ Forall (fun x => PyFloat.key_le x m = true) post.

Definition no_nan (xs : list float) : Prop :=
  Forall (fun x => PyFloat.is_nan x = false) xs.

(** A wafer-centre match whose four numbers [float()] accepts (or no such
    match on the line). *)
Definition parsable (l : line) : bool :=
  match centrematch l with
  | Some {| centre_x_um := Some _; centre_y_um := Some _;
            size_x_um := Some _; size_y_um := Some _ |} => true
  | Some _ => false
  | None => true
  end.

(** What the scanning loop prints: the centre and the size. *)
Definition is_geometry_print (e : event) : bool :=
  match e with
  | Print (Centre _ _) | Print (Size _ _) => true
  | _ => false
  end.

(** The wafer centre and size, in millimetres, captured from [g]. *)
Definition geometry_mm (g : centre_groups) : option (list float * (float * float)) :=
  match g with
  | {| centre_x_um := Some cx; centre_y_um := Some cy;
       size_x_um := Some sx; size_y_um := Some sy |} =>
      Some ([cx / 1000; cy / 1000]%float, (sx / 1000, sy / 1000)%float)
  | _ => None
  end.

(** The limits that the positions plot takes from the size [sz] are all
    finite numbers. *)
Definition finite_limits (sz : float * float) : bool :=
  (is_finite (- fst sz / 2) && is_finite (fst sz / 2))
  && (is_finite (- snd sz / 2) && is_finite (snd sz / 2)).

Definition finite_size (g : centre_groups) : bool :=
  match geometry_mm g with
  | Some (_, sz) => finite_limits sz
  | None => false
  end.

(** Ascending in the key, as far as [<] tells: no item is [<] the one
    before it. *)
Definition ascending (l : list block) : Prop :=
  Sorted (fun a b => key_lt b a = false) l.

(** The coordinates of a block. *)
Definition x_of (b : block) : float := snd (fst b).
Definition y_of (b : block) : float := snd b.

(** A block moved by the vector [(c0, c1)]. *)
Definition translate (c0 c1 : float) (b : block) : block :=
  let '(n, x, y) := b in (n, (x - c0)%float, (y - c1)%float).

(** The position of a block relative to the centre [(cx, cy)] given in
    micrometres. *)
Definition relative_to (cx cy : float) (b : block) : float * float :=
  let '(_, X, Y) := b in ((X - cx / 1000)%float, (Y - cy / 1000)%float).

(** The date groups of the first line of [ls] that matches the date
    pattern. *)
Fixpoint first_date (ls : list line) : option date_groups :=
  match ls with
  | [] => None
  | l :: rest =>
      match datematch l with
      | Some g => Some g
      | None => first_date rest
      end
  end.

(** [f"{dyear}-{dmonth}-{dday}"] *)
Definition date_label (g : date_groups) : string :=
  (dyear g ++ "-" ++ dmonth g ++ "-" ++ dday g)%string.

(** The groups of the lines of [ls] that match the drift pattern, in file
    order. *)
Definition drift_groups_of (ls : list line) : list drift_groups :=
  flat_map (fun l => match drift_match l with Some g => [g] | None => [] end) ls.

(** What the wafer-centre part of an iteration prints for [l]. *)
Definition geometry_prints (l : line) : list event :=
  match centrematch l with
  | Some {| centre_x_um := Some cx; centre_y_um := Some cy;
            size_x_um := Some sx; size_y_um := Some sy |} =>
      [Print (Centre (cx / 1000) (cy / 1000)); Print (Size (sx / 1000) (sy / 1000))]
  | _ => []
  end.

(** The points of the [plt.scatter(rel_x, rel_y, ...)] calls of a run, in
    call order. *)
Definition scattered (out : list event) : list (float * float) :=
  flat_map (fun e => match e with Plot (Scatter x y) => [(x, y)] | _ => [] end) out.

Definition block_numbers (l : list block) : list Z :=
  map (fun b : block => fst (fst b)) l.

(** A text written in the digits 0 to 9. *)
Definition ascii_digits (s : string) : bool :=
  match s with
  | EmptyString => false
  | _ => match digits_value 0 s with Some _ => true | None => false end
  end.

(** A number written in the digits 0 to 9 that [%H] (with [limit] 23) or
    [%M] (with [limit] 59) does not take: it has more than two digits or
    is above the limit. *)
Definition refused (limit : Z) (s : string) : bool :=
  ascii_digits s
  && match field 2 s with Some v => limit <? v | None => true end.

(** A timestamp on a whole minute of its day, within [datetime]'s range. *)
Definition whole_minute (t : datetime) : Prop :=
  0 <= seconds t < 86400 /\ seconds t mod 60 = 0
  /\ 1 <= ordinal t <= MAXORDINAL.

(** [t] is the candidate [c] or [c] moved on by one day. *)
Definition same_or_next_day (c t : datetime) : Prop :=
  t = c \/ t = next_day c.

(** ** Sample lines *)

Definition no_match : line :=
  {| centrematch := None; datematch := None; drift_match := None; driftpos_match := None |}.

(** [--centre=cx,cy ... --size=sx,sy] *)
Definition centre_line (cx cy sx sy : float) : line :=
  {| centrematch := Some {| centre_x_um := Some cx; centre_y_um := Some cy;
                            size_x_um := Some sx; size_y_um := Some sy |};
     datematch := None; drift_match := None; driftpos_match := None |}.

(** [--centre=1.2.3,0 --size=1,1]: the first number does not parse. *)
Definition bad_centre_line : line :=
  {| centrematch := Some {| centre_x_um := None; centre_y_um := Some 0%float;
                            size_x_um := Some 1%float; size_y_um := Some 1%float |};
     datematch := None; drift_match := None; driftpos_match := None |}.

(** [Thu <month> <day> <time> AEST <year>] *)
Definition date_line (month day time year : string) : line :=
  {| centrematch := None;
     datematch := Some {| dweek := "Thu"; dmonth := month; dday := day;
                          dtime := time; dtzone := "AEST"; dyear := year |};
     drift_match := None; driftpos_match := None |}.

(** [cal drift h:m ; 0_nm,0_nm dx_nm/min,dy_nm/min] *)
Definition drift_line (h m : string) (dx dy : float) : line :=
  {| centrematch := None; datematch := None;
     drift_match := Some {| hour := h; minute := m; dxdt := dx; dydt := dy |};
     driftpos_match := None |}.

(** [block: n  Abs coord: x_mm,y_mm] *)
Definition block_line (n : Z) (x y : float) : line :=
  {| centrematch := None; datematch := None; drift_match := None;
     driftpos_match := Some {| block_number := Some n; x_coord := x; y_coord := y |} |}.

(** [block: 99...9  Abs coord: x_mm,y_mm] with a block number of 4301
    digits. *)
Definition long_block_line (x y : float) : line :=
  {| centrematch := None; datematch := None; drift_match := None;
     driftpos_match := Some {| block_number := None; x_coord := x; y_coord := y |} |}.

Definition midnight_log : list line :=
  [ no_match;
    centre_line 75000 75000 150000 150000;
    date_line "Nov" "14" "17:30:26" "2024";
    block_line 2 80 70;
    block_line 1 75.5 74;
    drift_line "23" "58" (-5.0) 0.5;
    drift_line "00" "02" 3.2 (-0.25);
    drift_line "00" "10" (-1.1) 0.75 ].

Definition midnight_file : logfile :=
  {| file_path := "run.log"; first_line := "# JMAN LOGFILE v9_16
"; lines := midnight_log |}.

(** The lines of [midnight_log] under another first line. *)
Definition other_header_file : logfile :=
  {| file_path := "other.log"; first_line := "SOME OTHER HEADER"; lines := midnight_log |}.

(** A file with the first line [SOME OTHER HEADER] and, further down, a
    byte that the codec refuses. *)
Definition undecodable_file : selection :=
  Undecodable "other.log" "SOME OTHER HEADER".

(** Valid header, a drift line and a block, but no wafer-centre line. *)
Definition no_centre_file : logfile :=
  {| file_path := "run.log"; first_line := "JMAN LOGFILE";
     lines := [ date_line "Nov" "14" "17:30:26" "2024";
                block_line 1 75.5 74;
                drift_line "17" "31" 1.5 (-0.5) ] |}.

(** Valid header, no drift line, and a wafer-centre line whose first
    number is [1.2.3]. *)
Definition bad_centre_file : logfile :=
  {| file_path := "run.log"; first_line := "JMAN LOGFILE"; lines := [ bad_centre_line ] |}.

(** Valid header, no drift line, a wafer-centre line, and a calibration
    block whose number has 4301 digits. *)
Definition long_block_file : logfile :=
  {| file_path := "run.log"; first_line := "JMAN LOGFILE";
     lines := [ centre_line 75000 75000 150000 150000; long_block_line 75.5 74 ] |}.

(** Valid header, a wafer-centre line and a block, but no drift line. *)
Definition no_drift_file : logfile :=
  {| file_path := "run.log"; first_line := "JMAN LOGFILE";
     lines := [ centre_line 75000 75000 150000 150000; block_line 1 75.5 74 ] |}.

(** Two wafer-centre lines that disagree. *)
Definition two_centres_log : list line :=
  [ centre_line 1000 2000 150000 150000;
    date_line "Nov" "14" "17:30:26" "2024";
    centre_line 5000 6000 100000 100000;
    block_line 1 10 10;
    drift_line "17" "31" 1.5 (-0.5) ].



(** The same two samples with a line of the following date in between. *)
Definition dated_midnight_log : list line :=
  [ date_line "Nov" "30" "23:50:00" "2024";
    drift_line "23" "58" (-5.0) 0.5;
    date_line "Dec" "1" "00:00:01" "2024";
    drift_line "00" "02" 3.2 (-0.25) ].

Definition two_centres_file : logfile :=
  {| file_path := "run.log"; first_line := "JMAN LOGFILE"; lines := two_centres_log |}.

(** Valid header, a block and a drift line, no wafer-centre line, and no
    date line before the drift line. *)
Definition no_date_file : logfile :=
  {| file_path := "run.log"; first_line := "JMAN LOGFILE";
     lines := [ block_line 1 75.5 74; drift_line "17" "31" 1.5 (-0.5) ] |}.

(** One date line and samples at 23:00, 01:00, 23:58 and 00:02: midnight
    passes twice. *)
Definition two_crossings_log : list line :=
  [ date_line "Nov" "14" "17:30:26" "2024";
    drift_line "23" "00" 1.0 1.0;
    drift_line "01" "00" 1.0 1.0;
    drift_line "23" "58" 1.0 1.0;
    drift_line "00" "02" 1.0 1.0 ].

(** The variables of the loop after it has scanned [two_centres_log]. *)
Definition two_centres_state : state :=
  Eval vm_compute in
    match snd (scan initial two_centres_log) with
    | inr s => s
    | inl _ => initial
    end.

(** Two blocks of the same number whose x coordinates differ by far less
    than the spacing of binary64 numbers around the wafer centre; in the
    log: [block: 1  Abs coord: 0.00000000000000001_mm,5_mm] and
    [block: 1  Abs coord: 0.00000000000000002_mm,3_mm]. *)
Definition tiny_blocks : list block :=
  [(1, 1e-17%float, 5%float); (1, 2e-17%float, 3%float)].

(** Blocks whose coordinates merge under the translation by (75, 75)
    without changing order: the x coordinates 1e-17 and 2e-17 both become
    -75 with ascending y, and the y coordinates 1e-17 and 2e-17 both
    become -75 at the same x. *)
Definition merging_blocks : list block :=
  [(1, 80%float, 2e-17%float); (1, 2e-17%float, 5%float);
   (1, 80%float, 1e-17%float); (2, 1e-17%float, 9%float);
   (1, 1e-17%float, 3%float)].

Definition tiny_file : logfile :=
  {| file_path := "run.log"; first_line := "JMAN LOGFILE";
     lines := [ centre_line 75000 75000 150000 150000;
                date_line "Nov" "14" "17:30:26" "2024";
                block_line 1 1e-17 5;
                block_line 1 2e-17 3;
                drift_line "17" "31" 1.5 (-0.5) ] |}.

(** The variables of the loop after it has scanned [midnight_log]. *)
Definition midnight_state : state :=
  Eval vm_compute in
    match snd (scan initial midnight_log) with
    | inr s => s
    | inl _ => initial
    end.

(** The variables of the loop after it has scanned [dated_midnight_log]. *)
Definition dated_midnight_state : state :=
  Eval vm_compute in
    match snd (scan initial dated_midnight_log) with
    | inr s => s
    | inl _ => initial
    end.

(** Valid header and a drift line, but neither a wafer-centre line nor a
    calibration block. *)
Definition drift_only_file : logfile :=
  {| file_path := "run.log"; first_line := "JMAN LOGFILE";
     lines := [ date_line "Nov" "14" "17:30:26" "2024";
                drift_line "17" "31" 1.5 (-0.5) ] |}.

(** ** Binary64 numbers as integers

    A finite binary64 number is a multiple of 2^-1074.  [scaled] gives
    that multiple, and the infinities the first power of two beyond the
    largest finite number; [rounded] rounds a non-negative integer to 53
    bits, to nearest with ties to even, as the subtraction of two finite
    numbers rounds their exact difference. *)

Module Binary64.

(** [D / 2^n] rounded to the nearest integer, ties to even. *)
Definition rne (D n : Z) : Z :=
  let q := D / 2 ^ n in
  let r := D mod 2 ^ n in
  if 2 * r <? 2 ^ n then q
  else if 2 * r =? 2 ^ n then (if Z.even q then q else q + 1)
  else q + 1.

(** The number of low bits that [D] has beyond 53. *)
Definition excess_bits (D : Z) : Z := Z.max (Z.log2 D + 1 - 53) 0.

(** 2^1024, in units of 2^-1074. *)
Definition overflow : Z := 2 ^ 2098.

Definition rounded (D : Z) : Z :=
  Z.min overflow (rne D (excess_bits D) * 2 ^ excess_bits D).

Definition rounded_signed (D : Z) : Z :=
  if D <? 0 then - rounded (- D) else rounded D.

Definition signed_value (s : bool) (m : positive) (e : Z) : Z :=
  cond_Zopp s (Zpos m * 2 ^ (e + 1074)).

Definition scaled (x : spec_float) : Z :=
  match x with
  | S754_zero _ => 0
  | S754_infinity s => cond_Zopp s overflow
  | S754_nan => 0
  | S754_finite s m e => signed_value s m e
  end.

(** The record that [k] right shifts by one bit leave of the mantissa
    [m]: the quotient, the last bit shifted out and whether any bit
    before it was set. *)
Definition shr_state (m k : Z) : shr_record :=
  if k =? 0 then Build_shr_record m false false
  else Build_shr_record (m / 2 ^ k) (Z.odd (m / 2 ^ (k - 1)))
                        (negb (m mod 2 ^ (k - 1) =? 0)).

(** The value of [x - c] for a finite [c], as a function of [x]. *)
Definition difference (c : spec_float) (x : spec_float) : Z :=
  match x with
  | S754_infinity s => cond_Zopp s overflow
  | _ => rounded_signed (scaled x - scaled c)
  end.

End Binary64.

(** * Properties *)

(** ** Order of binary64 numbers, from the specification of the primitives *)

Module FloatOrder.

Ltac cmp_cases :=
  repeat match goal with
  | H : context [Z.compare ?a ?b] |- _ => destruct (Z.compare_spec a b); simpl in H
  | |- context [Z.compare ?a ?b] => destruct (Z.compare_spec a b); simpl
  | H : context [Pos.compare_cont Eq ?a ?b] |- _ =>
      change (Pos.compare_cont Eq a b) with (Pos.compare a b) in H
  | |- context [Pos.compare_cont Eq ?a ?b] =>
      change (Pos.compare_cont Eq a b) with (Pos.compare a b)
  | H : context [Pos.compare ?a ?b] |- _ => destruct (Pos.compare_spec a b); simpl in H
  | |- context [Pos.compare ?a ?b] => destruct (Pos.compare_spec a b); simpl
  end; try discriminate; try reflexivity; try lia.

Ltac sf_cases :=
  unfold SFltb, SFleb, SFeqb, SFcompare; intros;
  repeat match goal with
  | x : spec_float |- _ => destruct x
  | s : bool |- _ => destruct s
  end; simpl in *; try discriminate; try reflexivity; try congruence; cmp_cases.

Lemma SFltb_leb a b : SFltb a b = true -> SFleb a b = true.
Proof. sf_cases. Qed.

Lemma SFleb_ltb_trans a b c :
  SFleb a b = true -> SFltb b c = true -> SFltb a c = true.
Proof. sf_cases. Qed.

Lemma SFltb_leb_trans a b c :
  SFltb a b = true -> SFleb b c = true -> SFltb a c = true.
Proof. sf_cases. Qed.

Lemma SFleb_refl a : a <> S754_nan -> SFleb a a = true.
Proof. sf_cases. Qed.

Lemma SFltb_total a b :
  a <> S754_nan -> b <> S754_nan -> SFltb b a = false -> SFleb a b = true.
Proof. sf_cases. Qed.

Lemma SFltb_asym a b : SFltb a b = true -> SFltb b a = false.
Proof. sf_cases. Qed.

Lemma SFltb_not_eqb a b : SFltb a b = true -> SFeqb b a = false.
Proof. sf_cases. Qed.

Lemma SFeqb_sym a b : SFeqb a b = SFeqb b a.
Proof. sf_cases. Qed.

Lemma SFeqb_nan a : SFeqb a a = true -> SFabs a <> S754_nan.
Proof. sf_cases. Qed.

Lemma abs_not_nan x : PyFloat.is_nan x = false -> Prim2SF (abs x) <> S754_nan.
Proof.
  unfold PyFloat.is_nan. rewrite eqb_spec, abs_spec. intros H.
  apply SFeqb_nan. now destruct (SFeqb (Prim2SF x) (Prim2SF x)).
Qed.

Lemma key_le_refl x : PyFloat.is_nan x = false -> PyFloat.key_le x x = true.
Proof.
  intros H. unfold PyFloat.key_le. rewrite leb_spec.
  apply SFleb_refl, abs_not_nan, H.
Qed.

Lemma key_lt_le x y : PyFloat.key_lt x y = true -> PyFloat.key_le x y = true.
Proof.
  unfold PyFloat.key_lt, PyFloat.key_le. rewrite ltb_spec, leb_spec.
  apply SFltb_leb.
Qed.

Lemma key_le_lt_trans x y z :
  PyFloat.key_le x y = true -> PyFloat.key_lt y z = true -> PyFloat.key_lt x z = true.
Proof.
  unfold PyFloat.key_lt, PyFloat.key_le. rewrite !ltb_spec, leb_spec.
  apply SFleb_ltb_trans.
Qed.

Lemma key_lt_le_trans x y z :
  PyFloat.key_lt x y = true -> PyFloat.key_le y z = true -> PyFloat.key_lt x z = true.
Proof.
  unfold PyFloat.key_lt, PyFloat.key_le. rewrite !ltb_spec, leb_spec.
  apply SFltb_leb_trans.
Qed.

Lemma key_total x y :
  PyFloat.is_nan x = false -> PyFloat.is_nan y = false ->
  PyFloat.key_lt y x = false -> PyFloat.key_le x y = true.
Proof.
  intros Hx Hy. unfold PyFloat.key_lt, PyFloat.key_le. rewrite ltb_spec, leb_spec.
  apply SFltb_total; now apply abs_not_nan.
Qed.

Lemma ltb_asym x y : PrimFloat.ltb x y = true -> PrimFloat.ltb y x = false.
Proof. rewrite !ltb_spec. apply SFltb_asym. Qed.

Lemma ltb_not_eqb x y : PrimFloat.ltb x y = true -> PrimFloat.eqb y x = false.
Proof. rewrite ltb_spec, eqb_spec. apply SFltb_not_eqb. Qed.

Lemma eqb_sym x y : PrimFloat.eqb x y = PrimFloat.eqb y x.
Proof. rewrite !eqb_spec. apply SFeqb_sym. Qed.

End FloatOrder.

(** ** Subtraction of binary64 numbers keeps the order, up to merging

    From the specification of the primitive [-] and [<?]: when
    [a - c < b - c] holds for the rounded differences, [a < b] holds.
    The proof computes, in units of 2^-1074, the value of the rounded
    difference of two finite numbers, which is a monotone function of
    their exact difference. *)

Module FloatSub.
Import Binary64.

Lemma pow2_pos n : 0 <= n -> 0 < 2 ^ n.
Proof. intros. apply Z.pow_pos_nonneg; lia. Qed.

Lemma rne_bounds D n : 0 <= n -> 0 <= D -> D / 2 ^ n <= rne D n <= D / 2 ^ n + 1.
Proof.
  intros Hn HD. unfold rne. cbv zeta.
  destruct (2 * (D mod 2 ^ n) <? 2 ^ n); [lia|].
  destruct (2 * (D mod 2 ^ n) =? 2 ^ n); [|lia].
  destruct (Z.even (D / 2 ^ n)); lia.
Qed.

Lemma rne_mono n D1 D2 : 0 <= n -> 0 <= D1 <= D2 -> rne D1 n <= rne D2 n.
Proof.
  intros Hn HD.
  pose proof (pow2_pos n Hn) as HP.
  assert (Hq : D1 / 2 ^ n <= D2 / 2 ^ n) by (apply Z.div_le_mono; lia).
  pose proof (rne_bounds D1 n Hn ltac:(lia)) as B1.
  pose proof (rne_bounds D2 n Hn ltac:(lia)) as B2.
  destruct (Z.eq_dec (D1 / 2 ^ n) (D2 / 2 ^ n)) as [E|E]; [|lia].
  pose proof (Z.div_mod D1 (2 ^ n) ltac:(lia)) as M1.
  pose proof (Z.div_mod D2 (2 ^ n) ltac:(lia)) as M2.
  assert (Hr : D1 mod 2 ^ n <= D2 mod 2 ^ n) by (rewrite E in M1; lia).
  unfold rne. cbv zeta. rewrite E.
  destruct (2 * (D1 mod 2 ^ n) <? 2 ^ n) eqn:A1;
    destruct (2 * (D2 mod 2 ^ n) <? 2 ^ n) eqn:A2;
    destruct (2 * (D1 mod 2 ^ n) =? 2 ^ n) eqn:C1;
    destruct (2 * (D2 mod 2 ^ n) =? 2 ^ n) eqn:C2;
    destruct (Z.even (D2 / 2 ^ n)); lia.
Qed.

Lemma excess_bits_nonneg D : 0 <= excess_bits D.
Proof. unfold excess_bits. lia. Qed.

Lemma excess_bits_mono D1 D2 : D1 <= D2 -> excess_bits D1 <= excess_bits D2.
Proof. intros H. unfold excess_bits. pose proof (Z.log2_le_mono _ _ H). lia. Qed.

Lemma rne_nonneg D n : 0 <= n -> 0 <= D -> 0 <= rne D n.
Proof.
  intros Hn HD. pose proof (rne_bounds D n Hn HD).
  pose proof (Z.div_pos D (2 ^ n) HD (pow2_pos n Hn)). lia.
Qed.

(** A rounded mantissa has at most 54 bits, and 53 or 54 when bits were
    dropped. *)
Lemma rne_upper D : 0 < D -> rne D (excess_bits D) * 2 ^ excess_bits D <= 2 ^ (53 + excess_bits D).
Proof.
  intros HD. pose proof (excess_bits_nonneg D) as Hn.
  pose proof (pow2_pos _ Hn) as HP.
  destruct (Z.log2_spec D HD) as [_ Hu].
  assert (Hlt : D < 2 ^ 53 * 2 ^ excess_bits D).
  { rewrite <- Z.pow_add_r by lia. eapply Z.lt_le_trans; [exact Hu|].
    apply Z.pow_le_mono_r; [lia|]. unfold excess_bits. lia. }
  assert (Hq : D / 2 ^ excess_bits D < 2 ^ 53) by (apply Z.div_lt_upper_bound; lia).
  pose proof (rne_bounds D (excess_bits D) Hn ltac:(lia)) as B.
  rewrite Z.pow_add_r by lia. apply Z.mul_le_mono_nonneg_r; lia.
Qed.

Lemma rne_lower D : 0 < D -> 0 < excess_bits D -> 2 ^ (52 + excess_bits D) <= rne D (excess_bits D) * 2 ^ excess_bits D.
Proof.
  intros HD Hs. pose proof (excess_bits_nonneg D) as Hn.
  pose proof (pow2_pos _ Hn) as HP.
  destruct (Z.log2_spec D HD) as [Hl _].
  assert (El : Z.log2 D = 52 + excess_bits D) by (unfold excess_bits in *; lia).
  rewrite El in Hl.
  assert (Hq : 2 ^ 52 <= D / 2 ^ excess_bits D).
  { apply Z.div_le_lower_bound; [lia|]. rewrite Z.mul_comm, <- Z.pow_add_r by lia. exact Hl. }
  pose proof (rne_bounds D (excess_bits D) Hn ltac:(lia)) as B.
  rewrite Z.pow_add_r by lia. apply Z.mul_le_mono_nonneg_r; lia.
Qed.

Lemma overflow_pos : 0 < overflow.
Proof. unfold overflow. apply pow2_pos. lia. Qed.

Lemma rounded_mono D1 D2 : 0 <= D1 <= D2 -> rounded D1 <= rounded D2.
Proof.
  intros H. unfold rounded.
  enough (rne D1 (excess_bits D1) * 2 ^ excess_bits D1 <= rne D2 (excess_bits D2) * 2 ^ excess_bits D2) by lia.
  pose proof (excess_bits_mono D1 D2 ltac:(lia)) as Hs.
  pose proof (excess_bits_nonneg D1) as Hn1.
  destruct (Z.eq_dec (excess_bits D1) (excess_bits D2)) as [E|E].
  - rewrite E. apply Z.mul_le_mono_nonneg_r; [pose proof (pow2_pos (excess_bits D2)); lia|].
    apply rne_mono; lia.
  - destruct (Z.eq_dec D1 0) as [->|N0].
    + unfold rne at 1. cbv zeta. change (excess_bits 0) with 0. simpl Z.mul at 1.
      pose proof (rne_nonneg D2 (excess_bits D2) (excess_bits_nonneg _) ltac:(lia)).
      pose proof (pow2_pos (excess_bits D2) (excess_bits_nonneg _)). simpl. nia.
    + pose proof (rne_upper D1 ltac:(lia)).
      pose proof (rne_lower D2 ltac:(lia) ltac:(lia)).
      assert (2 ^ (53 + excess_bits D1) <= 2 ^ (52 + excess_bits D2)) by (apply Z.pow_le_mono_r; lia).
      lia.
Qed.

Lemma rounded_nonneg D : 0 <= D -> 0 <= rounded D.
Proof.
  intros H. unfold rounded. pose proof overflow_pos.
  pose proof (rne_nonneg D (excess_bits D) (excess_bits_nonneg _) H).
  pose proof (pow2_pos (excess_bits D) (excess_bits_nonneg _)). nia.
Qed.

Lemma rounded_signed_mono D1 D2 : D1 <= D2 -> rounded_signed D1 <= rounded_signed D2.
Proof.
  intros H. unfold rounded_signed.
  destruct (D1 <? 0) eqn:E1; destruct (D2 <? 0) eqn:E2;
    try apply Z.ltb_lt in E1; try apply Z.ltb_lt in E2;
    try apply Z.ltb_ge in E1; try apply Z.ltb_ge in E2.
  - pose proof (rounded_mono (- D2) (- D1) ltac:(lia)). lia.
  - pose proof (rounded_nonneg (- D1) ltac:(lia)). pose proof (rounded_nonneg D2 ltac:(lia)). lia.
  - lia.
  - apply rounded_mono. lia.
Qed.

Lemma digits_bounds m :
  2 ^ (Zpos (digits2_pos m) - 1) <= Zpos m < 2 ^ Zpos (digits2_pos m).
Proof.
  induction m as [m IH|m IH|]; simpl digits2_pos.
  - rewrite Pos2Z.inj_succ.
    replace (Z.succ (Zpos (digits2_pos m)) - 1) with (Z.succ (Zpos (digits2_pos m) - 1)) by lia.
    rewrite !Z.pow_succ_r by lia. lia.
  - rewrite Pos2Z.inj_succ.
    replace (Z.succ (Zpos (digits2_pos m)) - 1) with (Z.succ (Zpos (digits2_pos m) - 1)) by lia.
    rewrite !Z.pow_succ_r by lia. lia.
  - simpl. lia.
Qed.

Lemma digits_log2 m : Zpos (digits2_pos m) = Z.log2 (Zpos m) + 1.
Proof.
  pose proof (digits_bounds m) as [L U].
  assert (Z.log2 (Zpos m) = Zpos (digits2_pos m) - 1); [|lia].
  apply Z.log2_unique; [lia|]. split; [exact L|].
  replace (Z.succ (Zpos (digits2_pos m) - 1)) with (Zpos (digits2_pos m)) by lia. exact U.
Qed.

Lemma fexp_eq x : fexp prec emax x = Z.max (x - 53) (-1074).
Proof. reflexivity. Qed.

(** What validity says about a finite number. *)
Lemma bounded_spec m e :
  bounded prec emax m e = true ->
  -1074 <= e <= 971
  /\ Zpos (digits2_pos m) <= 53
  /\ (-1074 < e -> Zpos (digits2_pos m) = 53).
Proof.
  unfold bounded, canonical_mantissa. rewrite fexp_eq. intros H.
  apply andb_prop in H. destruct H as [H1 H2].
  apply Z.eqb_eq in H1. apply Z.leb_le in H2.
  change (emax - prec) with 971 in H2. lia.
Qed.

Lemma value_bounds m e :
  bounded prec emax m e = true ->
  2 ^ (Zpos (digits2_pos m) - 1 + (e + 1074)) <= Zpos m * 2 ^ (e + 1074)
    < 2 ^ (Zpos (digits2_pos m) + (e + 1074))
  /\ 0 < Zpos m * 2 ^ (e + 1074) < overflow.
Proof.
  intros H. apply bounded_spec in H. destruct H as (He & Hd & Hn).
  pose proof (digits_bounds m) as [L U].
  assert (Hj : 0 <= e + 1074 <= 2045) by lia.
  revert Hj. generalize (e + 1074). intros j Hj.
  pose proof (pow2_pos j ltac:(lia)) as HP.
  assert (0 < Zpos (digits2_pos m)) by lia.
  rewrite !Z.pow_add_r by lia.
  assert (B1 : 2 ^ (Zpos (digits2_pos m) - 1) * 2 ^ j <= Zpos m * 2 ^ j)
    by (apply Z.mul_le_mono_nonneg_r; lia).
  assert (B2 : Zpos m * 2 ^ j < 2 ^ Zpos (digits2_pos m) * 2 ^ j)
    by (apply Z.mul_lt_mono_pos_r; lia).
  split; [lia|]. split; [nia|].
  assert (2 ^ Zpos (digits2_pos m) * 2 ^ j <= overflow); [|lia].
  rewrite <- Z.pow_add_r by lia. unfold overflow. apply Z.pow_le_mono_r; lia.
Qed.

(** Comparison of two valid finite numbers of the same sign. *)
Lemma compare_pos m1 e1 m2 e2 :
  bounded prec emax m1 e1 = true -> bounded prec emax m2 e2 = true ->
  match Z.compare e1 e2 with
  | Lt => Lt
  | Gt => Gt
  | Eq => Pos.compare_cont Eq m1 m2
  end = (Zpos m1 * 2 ^ (e1 + 1074) ?= Zpos m2 * 2 ^ (e2 + 1074)).
Proof.
  intros H1 H2.
  pose proof (value_bounds m1 e1 H1) as [[L1 U1] _].
  pose proof (value_bounds m2 e2 H2) as [[L2 U2] _].
  apply bounded_spec in H1, H2.
  destruct H1 as (He1 & Hd1 & Hn1), H2 as (He2 & Hd2 & Hn2).
  destruct (Z.compare_spec e1 e2) as [E|E|E].
  - subst e2. change (Pos.compare_cont Eq m1 m2) with (Zpos m1 ?= Zpos m2).
    pose proof (pow2_pos (e1 + 1074) ltac:(lia)) as HP.
    destruct (Z.compare_spec (Zpos m1) (Zpos m2)) as [C|C|C]; symmetry.
    + apply Z.compare_eq_iff. now rewrite C.
    + apply Z.compare_lt_iff. nia.
    + apply Z.compare_gt_iff. nia.
  - symmetry. apply Z.compare_lt_iff.
    rewrite (Hn2 ltac:(lia)) in L2.
    eapply Z.lt_le_trans; [exact U1|]. eapply Z.le_trans; [|exact L2].
    apply Z.pow_le_mono_r; lia.
  - symmetry. apply Z.compare_gt_iff.
    rewrite (Hn1 ltac:(lia)) in L1.
    eapply Z.lt_le_trans; [exact U2|]. eapply Z.le_trans; [|exact L1].
    apply Z.pow_le_mono_r; lia.
Qed.

Ltac decide_cmp :=
  unfold cond_Zopp; f_equal; symmetry;
  first [apply Z.compare_eq_iff; lia | apply Z.compare_lt_iff; lia
        | apply Z.compare_gt_iff; lia].

Lemma compare_scaled x y :
  valid_binary x = true -> valid_binary y = true ->
  x <> S754_nan -> y <> S754_nan ->
  SFcompare x y = Some (scaled x ?= scaled y).
Proof.
  intros Vx Vy Nx Ny. pose proof overflow_pos as HB.
  destruct x as [sx|sx| |sx mx ex], y as [sy|sy| |sy my ey]; try congruence;
    simpl in Vx, Vy; unfold SFcompare, scaled, signed_value.
  - reflexivity.
  - destruct sy; decide_cmp.
  - pose proof (value_bounds my ey Vy) as [_ B]. destruct sy; decide_cmp.
  - destruct sx; decide_cmp.
  - destruct sx, sy; decide_cmp.
  - pose proof (value_bounds my ey Vy) as [_ B]. destruct sx, sy; decide_cmp.
  - pose proof (value_bounds mx ex Vx) as [_ B]. destruct sx; decide_cmp.
  - pose proof (value_bounds mx ex Vx) as [_ B]. destruct sx, sy; decide_cmp.
  - pose proof (value_bounds mx ex Vx) as [_ Bx].
    pose proof (value_bounds my ey Vy) as [_ By].
    destruct sx, sy; try decide_cmp.
    + pose proof (compare_pos mx ex my ey Vx Vy) as C.
      unfold cond_Zopp. f_equal. revert C.
      destruct (Z.compare_spec ex ey) as [E|E|E]; intros C.
      * rewrite C, Z.compare_opp. symmetry. apply Z.compare_antisym.
      * symmetry. apply Z.compare_gt_iff. symmetry in C. rewrite Z.compare_lt_iff in C. lia.
      * symmetry. apply Z.compare_lt_iff. symmetry in C. rewrite Z.compare_gt_iff in C. lia.
    + unfold cond_Zopp. f_equal. apply compare_pos; assumption.
Qed.

Lemma shr_1_eq m r s :
  0 <= m -> shr_1 (Build_shr_record m r s) = Build_shr_record (m / 2) (Z.odd m) (r || s).
Proof.
  intros Hm. rewrite <- Z.div2_div.
  destruct m as [|[p|p|]|]; try reflexivity. lia.
Qed.

Lemma mod_double m h :
  0 < h -> m mod (h * 2) = m mod h + h * (if Z.odd (m / h) then 1 else 0).
Proof.
  intros Hh. rewrite Z.rem_mul_r by lia. now rewrite Zmod_odd.
Qed.

Lemma shr_1_state m k : 0 <= m -> 0 <= k -> shr_1 (shr_state m k) = shr_state m (k + 1).
Proof.
  intros Hm Hk. unfold shr_state.
  destruct (k =? 0) eqn:E0.
  - apply Z.eqb_eq in E0. subst k. rewrite shr_1_eq by exact Hm.
    change (0 + 1 =? 0) with false. cbv iota.
    change (2 ^ (0 + 1)) with 2. change (2 ^ (0 + 1 - 1)) with 1.
    rewrite Z.div_1_r, Z.mod_1_r. reflexivity.
  - apply Z.eqb_neq in E0.
    assert (E1 : (k + 1 =? 0) = false) by (apply Z.eqb_neq; lia). rewrite E1.
    pose proof (pow2_pos k Hk) as HP.
    pose proof (pow2_pos (k - 1) ltac:(lia)) as HP'.
    rewrite shr_1_eq by (apply Z.div_pos; lia).
    replace (k + 1 - 1) with k by lia.
    assert (Ek : 2 ^ k = 2 ^ (k - 1) * 2).
    { replace k with (Z.succ (k - 1)) at 1 by lia. rewrite Z.pow_succ_r by lia. lia. }
    f_equal.
    + rewrite Z.div_div by lia. f_equal.
      replace (k + 1) with (Z.succ k) by lia. rewrite Z.pow_succ_r by lia. lia.
    + rewrite Ek. rewrite mod_double by lia.
      pose proof (Z.mod_pos_bound m (2 ^ (k - 1)) HP') as Hb.
      destruct (Z.odd (m / 2 ^ (k - 1))); simpl.
      * symmetry. apply negb_true_iff, Z.eqb_neq. lia.
      * f_equal. rewrite Z.mul_0_r, Z.add_0_r. reflexivity.
Qed.

Lemma iter_state p : forall m k,
    0 <= m -> 0 <= k -> iter_pos shr_1 p (shr_state m k) = shr_state m (k + Zpos p).
Proof.
  induction p as [p IH|p IH|]; intros m k Hm Hk; simpl iter_pos.
  - rewrite shr_1_state, IH, IH by lia. f_equal. lia.
  - rewrite IH, IH by lia. f_equal. lia.
  - now apply shr_1_state.
Qed.

Lemma round_state m n :
  0 <= m -> 0 < n ->
  round_nearest_even (shr_m (shr_state m n)) (loc_of_shr_record (shr_state m n)) = rne m n.
Proof.
  intros Hm Hn. unfold shr_state.
  assert (E0 : (n =? 0) = false) by (apply Z.eqb_neq; lia). rewrite E0.
  pose proof (pow2_pos (n - 1) ltac:(lia)) as HP'.
  assert (En : 2 ^ n = 2 ^ (n - 1) * 2).
  { replace n with (Z.succ (n - 1)) at 1 by lia. rewrite Z.pow_succ_r by lia. lia. }
  unfold rne. cbv zeta. simpl shr_m.
  pose proof (mod_double m (2 ^ (n - 1)) HP') as Hd. rewrite <- En in Hd.
  pose proof (Z.mod_pos_bound m (2 ^ (n - 1)) HP') as Hb.
  unfold loc_of_shr_record.
  destruct (Z.odd (m / 2 ^ (n - 1))) eqn:Eo;
    destruct (m mod 2 ^ (n - 1) =? 0) eqn:Es; simpl negb; cbv iota;
    [apply Z.eqb_eq in Es|apply Z.eqb_neq in Es|apply Z.eqb_eq in Es|apply Z.eqb_neq in Es];
    unfold round_nearest_even.
  - assert (A1 : (2 * (m mod 2 ^ n) <? 2 ^ n) = false) by (apply Z.ltb_ge; lia).
    assert (A2 : (2 * (m mod 2 ^ n) =? 2 ^ n) = true) by (apply Z.eqb_eq; lia).
    now rewrite A1, A2.
  - assert (A1 : (2 * (m mod 2 ^ n) <? 2 ^ n) = false) by (apply Z.ltb_ge; lia).
    assert (A2 : (2 * (m mod 2 ^ n) =? 2 ^ n) = false) by (apply Z.eqb_neq; lia).
    now rewrite A1, A2.
  - assert (A1 : (2 * (m mod 2 ^ n) <? 2 ^ n) = true) by (apply Z.ltb_lt; lia).
    now rewrite A1.
  - assert (A1 : (2 * (m mod 2 ^ n) <? 2 ^ n) = true) by (apply Z.ltb_lt; lia).
    now rewrite A1.
Qed.

Lemma rne_exact a n : 0 <= n -> rne (a * 2 ^ n) n = a.
Proof.
  intros Hn. pose proof (pow2_pos n Hn) as HP. unfold rne. cbv zeta.
  rewrite Z.mod_mul, Z.div_mul by lia.
  assert (A1 : (2 * 0 <? 2 ^ n) = true) by (apply Z.ltb_lt; lia).
  now rewrite A1.
Qed.

Lemma rne_scale a n j : 0 <= n -> 0 <= j -> rne (a * 2 ^ j) (n + j) = rne a n.
Proof.
  intros Hn Hj. pose proof (pow2_pos n Hn) as HP. pose proof (pow2_pos j Hj) as HQ.
  unfold rne. cbv zeta. rewrite Z.pow_add_r by lia.
  rewrite Z.div_mul_cancel_r by lia.
  rewrite Z.mul_mod_distr_r by lia.
  assert (E1 : (2 * (a mod 2 ^ n * 2 ^ j) <? 2 ^ n * 2 ^ j) = (2 * (a mod 2 ^ n) <? 2 ^ n)).
  { destruct (2 * (a mod 2 ^ n) <? 2 ^ n) eqn:E;
      [apply Z.ltb_lt in E; apply Z.ltb_lt|apply Z.ltb_ge in E; apply Z.ltb_ge]; nia. }
  assert (E2 : (2 * (a mod 2 ^ n * 2 ^ j) =? 2 ^ n * 2 ^ j) = (2 * (a mod 2 ^ n) =? 2 ^ n)).
  { destruct (2 * (a mod 2 ^ n) =? 2 ^ n) eqn:E;
      [apply Z.eqb_eq in E; apply Z.eqb_eq|apply Z.eqb_neq in E; apply Z.eqb_neq]; nia. }
  now rewrite E1, E2.
Qed.

(** No bit to drop: the number is kept as it is. *)
Lemma round_aux_exact s mz e :
  Z.max (Zpos (digits2_pos mz) + e - 53) (-1074) = e ->
  binary_round_aux prec emax s (Zpos mz) e loc_Exact
  = if e <=? 971 then S754_finite s mz e else S754_infinity s.
Proof.
  intros H. unfold binary_round_aux, shr_fexp. simpl Zdigits2.
  rewrite fexp_eq, H, Z.sub_diag. simpl shr. cbv beta iota.
  simpl shr_m. simpl loc_of_shr_record. simpl round_nearest_even.
  simpl Zdigits2. unfold shr_fexp. simpl Zdigits2.
  rewrite fexp_eq, H, Z.sub_diag. reflexivity.
Qed.

Lemma quotient_bounds m n :
  0 <= n -> Zpos (digits2_pos m) = 53 + n ->
  2 ^ 52 <= Zpos m / 2 ^ n < 2 ^ 53.
Proof.
  intros Hn Hd. pose proof (digits_bounds m) as [L U]. rewrite Hd in L, U.
  pose proof (pow2_pos n Hn) as HP.
  replace (53 + n - 1) with (52 + n) in L by lia.
  rewrite Z.pow_add_r in L, U by lia.
  split.
  - apply Z.div_le_lower_bound; lia.
  - apply Z.div_lt_upper_bound; lia.
Qed.

Lemma digits_53 qp : 2 ^ 52 <= Zpos qp < 2 ^ 53 -> Zpos (digits2_pos qp) = 53.
Proof.
  intros H. rewrite digits_log2.
  assert (Z.log2 (Zpos qp) = 52); [|lia].
  apply Z.log2_unique; [lia|]. exact H.
Qed.

(** Bits are dropped: round to nearest, ties to even, and renormalise
    when the rounding carries into a 54th bit. *)
Lemma round_aux_round s m e n :
  0 < n -> Zpos (digits2_pos m) = 53 + n -> -1074 <= e ->
  2 ^ 52 <= rne (Zpos m) n <= 2 ^ 53
  /\ binary_round_aux prec emax s (Zpos m) e loc_Exact
     = if rne (Zpos m) n =? 2 ^ 53
       then (if e + n + 1 <=? 971 then S754_finite s (Z.to_pos (2 ^ 52)) (e + n + 1)
             else S754_infinity s)
       else (if e + n <=? 971 then S754_finite s (Z.to_pos (rne (Zpos m) n)) (e + n)
             else S754_infinity s).
Proof.
  intros Hn Hd He.
  pose proof (quotient_bounds m n ltac:(lia) Hd) as Hq.
  pose proof (rne_bounds (Zpos m) n ltac:(lia) ltac:(lia)) as Hr.
  split; [lia|].
  unfold binary_round_aux. unfold shr_fexp at 1. simpl Zdigits2.
  rewrite fexp_eq, Hd.
  replace (Z.max (53 + n + e - 53) (-1074) - e) with n by lia.
  destruct n as [|p|p]; try lia.
  unfold shr at 1.
  change (shr_record_of_loc (Zpos m) loc_Exact) with (shr_state (Zpos m) 0).
  rewrite iter_state by lia. cbv beta iota. change (0 + Zpos p) with (Zpos p).
  rewrite round_state by lia.
  destruct (rne (Zpos m) (Zpos p)) as [|qp|qp] eqn:Eq; try lia.
  unfold shr_fexp. simpl Zdigits2. rewrite fexp_eq.
  destruct (Z.eq_dec (Zpos qp) (2 ^ 53)) as [E53|N53].
  - assert (E' : (Zpos qp =? 2 ^ 53) = true) by now apply Z.eqb_eq. rewrite E'.
    injection E53 as ->. simpl digits2_pos.
    replace (Z.max (54 + (e + Zpos p) - 53) (-1074) - (e + Zpos p)) with 1 by lia.
    simpl. change (emax - prec) with 971. reflexivity.
  - assert (E' : (Zpos qp =? 2 ^ 53) = false) by now apply Z.eqb_neq. rewrite E'.
    rewrite (digits_53 qp) by lia.
    replace (Z.max (53 + (e + Zpos p) - 53) (-1074) - (e + Zpos p)) with 0 by lia.
    simpl. change (emax - prec) with 971. reflexivity.
Qed.

Lemma pos_iter_xO m d : Zpos (Pos.iter xO m d) = Zpos m * 2 ^ Zpos d.
Proof.
  induction d as [|d IH] using Pos.peano_ind.
  - simpl. lia.
  - rewrite Pos.iter_succ, Pos2Z.inj_succ, Z.pow_succ_r by lia.
    rewrite Pos2Z.inj_xO, IH. lia.
Qed.

Lemma scaled_bounds m j :
  0 <= j ->
  2 ^ (Zpos (digits2_pos m) - 1 + j) <= Zpos m * 2 ^ j < 2 ^ (Zpos (digits2_pos m) + j).
Proof.
  intros Hj. pose proof (digits_bounds m) as [L U].
  pose proof (pow2_pos j Hj) as HP.
  assert (0 < Zpos (digits2_pos m)) by lia.
  rewrite !Z.pow_add_r by lia.
  split; [apply Z.mul_le_mono_nonneg_r; lia|apply Z.mul_lt_mono_pos_r; lia].
Qed.

Lemma excess_bits_scaled m j :
  0 <= j -> excess_bits (Zpos m * 2 ^ j) = Z.max (Zpos (digits2_pos m) + j - 53) 0.
Proof.
  intros Hj. unfold excess_bits. rewrite Z.log2_mul_pow2 by lia. rewrite digits_log2. lia.
Qed.

Lemma digits_scaled mz m k :
  0 <= k -> Zpos mz = Zpos m * 2 ^ k ->
  Zpos (digits2_pos mz) = Zpos (digits2_pos m) + k.
Proof.
  intros Hk H. rewrite !digits_log2, H, Z.log2_mul_pow2 by lia. lia.
Qed.

(** The value of a number kept as it is. *)
Lemma exact_scaled s mz E :
  -1074 <= E ->
  Z.max (Zpos (digits2_pos mz) + E - 53) (-1074) = E ->
  let R := if E <=? 971 then S754_finite s mz E else S754_infinity s in
  R <> S754_nan /\ scaled R = cond_Zopp s (rounded (Zpos mz * 2 ^ (E + 1074))).
Proof.
  intros HE Hc R. subst R.
  pose proof (scaled_bounds mz (E + 1074) ltac:(lia)) as [L U].
  assert (Hs : excess_bits (Zpos mz * 2 ^ (E + 1074)) = E + 1074)
    by (rewrite excess_bits_scaled by lia; lia).
  unfold rounded. rewrite Hs, rne_exact by lia.
  destruct (E <=? 971) eqn:El; [apply Z.leb_le in El|apply Z.leb_gt in El];
    (split; [discriminate|]); unfold scaled, signed_value; f_equal.
  - assert (2 ^ (Zpos (digits2_pos mz) + (E + 1074)) <= overflow)
      by (unfold overflow; apply Z.pow_le_mono_r; lia).
    lia.
  - assert (overflow <= 2 ^ (Zpos (digits2_pos mz) - 1 + (E + 1074)))
      by (unfold overflow; apply Z.pow_le_mono_r; lia).
    lia.
Qed.

Lemma binary_round_scaled s m e :
  -1074 <= e ->
  binary_round prec emax s m e <> S754_nan
  /\ scaled (binary_round prec emax s m e) = cond_Zopp s (rounded (Zpos m * 2 ^ (e + 1074))).
Proof.
  intros He. unfold binary_round, shl_align. rewrite fexp_eq.
  destruct (Z.max (Zpos (digits2_pos m) + e - 53) (-1074) - e) as [|p|p] eqn:Ed.
  - rewrite round_aux_exact by lia. apply exact_scaled; lia.
  - assert (Hd : Zpos (digits2_pos m) = 53 + Zpos p) by lia.
    destruct (round_aux_round s m e (Zpos p) ltac:(lia) Hd He) as [Hq ->].
    pose proof (pow2_pos (Zpos p + (e + 1074)) ltac:(lia)) as HX.
    assert (Hs : excess_bits (Zpos m * 2 ^ (e + 1074)) = Zpos p + (e + 1074))
      by (rewrite excess_bits_scaled by lia; lia).
    unfold rounded. rewrite Hs, rne_scale by lia.
    replace (e + Zpos p + 1 + 1074) with (Z.succ (Zpos p + (e + 1074))) by lia.
    destruct (rne (Zpos m) (Zpos p) =? 2 ^ 53) eqn:E53;
      [apply Z.eqb_eq in E53; rewrite E53|apply Z.eqb_neq in E53].
    + destruct (e + Zpos p + 1 <=? 971) eqn:El;
        [apply Z.leb_le in El|apply Z.leb_gt in El];
        (split; [discriminate|]); unfold scaled, signed_value; f_equal.
      * replace (e + Zpos p + 1 + 1074) with (Z.succ (Zpos p + (e + 1074))) by lia.
        rewrite Z.pow_succ_r by lia.
        assert (2 ^ 53 * 2 ^ (Zpos p + (e + 1074)) < overflow).
        { rewrite <- Z.pow_add_r by lia. unfold overflow. apply Z.pow_lt_mono_r; lia. }
        change (Zpos (Z.to_pos (2 ^ 52))) with (2 ^ 52). change (2 ^ 53) with (2 * 2 ^ 52) in *.
        lia.
      * assert (overflow <= 2 ^ 53 * 2 ^ (Zpos p + (e + 1074))).
        { rewrite <- Z.pow_add_r by lia. unfold overflow. apply Z.pow_le_mono_r; lia. }
        lia.
    + destruct (e + Zpos p <=? 971) eqn:El;
        [apply Z.leb_le in El|apply Z.leb_gt in El];
        (split; [discriminate|]); unfold scaled, signed_value; f_equal.
      * rewrite Z2Pos.id by lia.
        replace (e + Zpos p + 1074) with (Zpos p + (e + 1074)) by lia.
        assert (2 ^ 53 * 2 ^ (Zpos p + (e + 1074)) <= overflow).
        { rewrite <- Z.pow_add_r by lia. unfold overflow. apply Z.pow_le_mono_r; lia. }
        nia.
      * assert (overflow <= 2 ^ 52 * 2 ^ (Zpos p + (e + 1074))).
        { rewrite <- Z.pow_add_r by lia. unfold overflow. apply Z.pow_le_mono_r; lia. }
        nia.
  - assert (Hz : Zpos (Pos.iter xO m p) = Zpos m * 2 ^ Zpos p) by apply pos_iter_xO.
    pose proof (digits_scaled _ m (Zpos p) ltac:(lia) Hz) as Hd.
    remember (Z.max (Zpos (digits2_pos m) + e - 53) (-1074)) as E eqn:HE.
    assert (Hc : Z.max (Zpos (digits2_pos (Pos.iter xO m p)) + E - 53) (-1074) = E)
      by (rewrite Hd; lia).
    rewrite round_aux_exact by exact Hc.
    replace (Zpos m * 2 ^ (e + 1074)) with (Zpos (Pos.iter xO m p) * 2 ^ (E + 1074)).
    + apply exact_scaled; [lia|exact Hc].
    + rewrite Hz. replace (e + 1074) with (Zpos p + (E + 1074)) by lia.
      rewrite (Z.pow_add_r 2 (Zpos p) (E + 1074)) by lia. lia.
Qed.

Lemma shl_align_value m e ez :
  -1074 <= ez <= e ->
  Zpos (fst (shl_align m e ez)) * 2 ^ (ez + 1074) = Zpos m * 2 ^ (e + 1074).
Proof.
  intros H. unfold shl_align.
  destruct (ez - e) as [|p|p] eqn:Ed; simpl fst.
  - now replace ez with e by lia.
  - lia.
  - rewrite pos_iter_xO. replace (e + 1074) with (Zpos p + (ez + 1074)) by lia.
    rewrite (Z.pow_add_r 2 (Zpos p) (ez + 1074)) by lia. lia.
Qed.

Lemma rounded_0 : rounded 0 = 0.
Proof. reflexivity. Qed.

Lemma rounded_le_overflow D : rounded D <= overflow.
Proof. unfold rounded. lia. Qed.

Lemma rounded_signed_bounds D : - overflow <= rounded_signed D <= overflow.
Proof.
  unfold rounded_signed. destruct (D <? 0) eqn:E; [apply Z.ltb_lt in E|apply Z.ltb_ge in E].
  - pose proof (rounded_le_overflow (- D)). pose proof (rounded_nonneg (- D) ltac:(lia)). lia.
  - pose proof (rounded_le_overflow D). pose proof (rounded_nonneg D ltac:(lia)). lia.
Qed.

(** A valid number is its own rounding. *)
Lemma rounded_valid m e :
  bounded prec emax m e = true ->
  rounded (Zpos m * 2 ^ (e + 1074)) = Zpos m * 2 ^ (e + 1074).
Proof.
  intros V. pose proof (bounded_spec m e V) as (He & Hd & Hn).
  assert (Hc : Z.max (Zpos (digits2_pos m) + e - 53) (-1074) = e).
  { unfold bounded, canonical_mantissa in V. rewrite fexp_eq in V.
    apply andb_prop in V. destruct V as [V _]. now apply Z.eqb_eq in V. }
  destruct (exact_scaled false m e ltac:(lia) Hc) as [_ HK].
  assert (El : (e <=? 971) = true) by (apply Z.leb_le; lia).
  rewrite El in HK. simpl in HK. unfold signed_value in HK. simpl in HK. now symmetry.
Qed.

Lemma sub_finite_scaled sa ma ea sc mc ec :
  bounded prec emax ma ea = true -> bounded prec emax mc ec = true ->
  SFsub prec emax (S754_finite sa ma ea) (S754_finite sc mc ec) <> S754_nan
  /\ scaled (SFsub prec emax (S754_finite sa ma ea) (S754_finite sc mc ec))
     = rounded_signed (signed_value sa ma ea - signed_value sc mc ec).
Proof.
  intros Va Vc.
  pose proof (bounded_spec ma ea Va) as (Hea & _).
  pose proof (bounded_spec mc ec Vc) as (Hec & _).
  unfold SFsub. cbv zeta.
  pose proof (shl_align_value ma ea (Z.min ea ec) ltac:(lia)) as Ha.
  pose proof (shl_align_value mc ec (Z.min ea ec) ltac:(lia)) as Hc.
  assert (Hz : (cond_Zopp sa (Zpos (fst (shl_align ma ea (Z.min ea ec))))
                - cond_Zopp sc (Zpos (fst (shl_align mc ec (Z.min ea ec)))))
               * 2 ^ (Z.min ea ec + 1074)
               = signed_value sa ma ea - signed_value sc mc ec).
  { unfold signed_value. rewrite <- Ha, <- Hc. destruct sa, sc; unfold cond_Zopp; lia. }
  pose proof (pow2_pos (Z.min ea ec + 1074) ltac:(lia)) as HP.
  revert Hz.
  generalize (cond_Zopp sa (Zpos (fst (shl_align ma ea (Z.min ea ec))))
              - cond_Zopp sc (Zpos (fst (shl_align mc ec (Z.min ea ec))))).
  intros z Hz. rewrite <- Hz. unfold binary_normalize.
  destruct z as [|p|p].
  - split; [discriminate|]. reflexivity.
  - destruct (binary_round_scaled false p (Z.min ea ec) ltac:(lia)) as [N ->].
    split; [exact N|]. unfold rounded_signed, cond_Zopp.
    assert (E : (Zpos p * 2 ^ (Z.min ea ec + 1074) <? 0) = false) by (apply Z.ltb_ge; lia).
    now rewrite E.
  - destruct (binary_round_scaled true p (Z.min ea ec) ltac:(lia)) as [N ->].
    split; [exact N|]. unfold rounded_signed, cond_Zopp.
    assert (E : (Z.neg p * 2 ^ (Z.min ea ec + 1074) <? 0) = true) by (apply Z.ltb_lt; lia).
    rewrite E. do 2 f_equal. lia.
Qed.

Lemma sub_scaled x sc mc ec :
  valid_binary x = true -> bounded prec emax mc ec = true -> x <> S754_nan ->
  SFsub prec emax x (S754_finite sc mc ec) <> S754_nan
  /\ scaled (SFsub prec emax x (S754_finite sc mc ec)) = difference (S754_finite sc mc ec) x.
Proof.
  intros Vx Vc Nx. destruct x as [sx|sx| |sx mx ex]; try congruence.
  - split; [discriminate|]. unfold SFsub, difference, scaled, signed_value, rounded_signed.
    pose proof (value_bounds mc ec Vc) as [_ B].
    destruct sc; unfold cond_Zopp, negb.
    + assert (E : (0 - - (Zpos mc * 2 ^ (ec + 1074)) <? 0) = false) by (apply Z.ltb_ge; lia).
      rewrite E. replace (0 - - (Zpos mc * 2 ^ (ec + 1074))) with (Zpos mc * 2 ^ (ec + 1074)) by lia.
      now rewrite (rounded_valid mc ec Vc).
    + assert (E : (0 - Zpos mc * 2 ^ (ec + 1074) <? 0) = true) by (apply Z.ltb_lt; lia).
      rewrite E. replace (- (0 - Zpos mc * 2 ^ (ec + 1074))) with (Zpos mc * 2 ^ (ec + 1074)) by lia.
      now rewrite (rounded_valid mc ec Vc).
  - split; [discriminate|]. reflexivity.
  - simpl in Vx. apply (sub_finite_scaled sx mx ex sc mc ec Vx Vc).
Qed.

Lemma difference_mono c x y :
  valid_binary x = true -> valid_binary y = true ->
  x <> S754_nan -> y <> S754_nan ->
  scaled x <= scaled y -> difference c x <= difference c y.
Proof.
  intros Vx Vy Nx Ny H. pose proof overflow_pos as HB.
  pose proof (rounded_signed_bounds (scaled x - scaled c)) as Bx.
  pose proof (rounded_signed_bounds (scaled y - scaled c)) as By.
  assert (Fin : forall z, valid_binary z = true -> - overflow < scaled z < overflow \/ exists s, z = S754_infinity s).
  { intros [s|s| |s m e] V; unfold scaled.
    - left. lia.
    - right. now exists s.
    - left. lia.
    - left. simpl in V. pose proof (value_bounds m e V) as [_ B].
      unfold signed_value. destruct s; unfold cond_Zopp; lia. }
  destruct x as [sx|sx| |sx mx ex]; try congruence;
    destruct y as [sy|sy| |sy my ey]; try congruence;
    unfold difference;
    try (apply rounded_signed_mono; lia);
    try (destruct sx; unfold cond_Zopp; lia);
    try (destruct sy; unfold cond_Zopp; lia).
  - simpl in H. destruct sy; unfold cond_Zopp in *; lia.
  - simpl in H. destruct sx; unfold cond_Zopp in *; lia.
  - simpl in H. destruct sx, sy; unfold cond_Zopp in *; lia.
  - simpl scaled in H. destruct (Fin _ Vy) as [F|[s F]]; [|discriminate].
    simpl scaled in F. destruct sx; unfold cond_Zopp in *; lia.
  - simpl scaled in H. destruct (Fin _ Vx) as [F|[s F]]; [|discriminate].
    simpl scaled in F. destruct sy; unfold cond_Zopp in *; lia.
Qed.

Lemma SFltb_scaled x y :
  valid_binary x = true -> valid_binary y = true ->
  SFltb x y = true <-> (x <> S754_nan /\ y <> S754_nan /\ scaled x < scaled y).
Proof.
  intros Vx Vy. unfold SFltb. split.
  - intros H.
    assert (Nx : x <> S754_nan) by (intros ->; discriminate).
    assert (Ny : y <> S754_nan) by (intros ->; destruct x; discriminate).
    rewrite (compare_scaled x y Vx Vy Nx Ny) in H.
    destruct (scaled x ?= scaled y) eqn:E; try discriminate.
    apply Z.compare_lt_iff in E. auto.
  - intros (Nx & Ny & H). rewrite (compare_scaled x y Vx Vy Nx Ny).
    apply Z.compare_lt_iff in H. now rewrite H.
Qed.

Lemma sub_nan_l c : SFsub prec emax S754_nan c = S754_nan.
Proof. reflexivity. Qed.

Lemma sub_nan_r x : SFsub prec emax x S754_nan = S754_nan.
Proof. now destruct x. Qed.

(** Subtracting the same number from both sides cannot create a strict
    order that was not there. *)
Lemma SFsub_ltb a b c :
  valid_binary a = true -> valid_binary b = true -> valid_binary c = true ->
  valid_binary (SFsub prec emax a c) = true ->
  valid_binary (SFsub prec emax b c) = true ->
  SFltb (SFsub prec emax a c) (SFsub prec emax b c) = true ->
  SFltb a b = true.
Proof.
  intros Va Vb Vc Vac Vbc H.
  apply (SFltb_scaled _ _ Vac Vbc) in H. destruct H as (Nac & Nbc & H).
  assert (Na : a <> S754_nan) by (intros ->; now rewrite sub_nan_l in Nac).
  assert (Nb : b <> S754_nan) by (intros ->; now rewrite sub_nan_l in Nbc).
  apply (SFltb_scaled _ _ Va Vb). split; [exact Na|]. split; [exact Nb|].
  destruct c as [sc|sc| |sc mc ec].
  - assert (Z : forall x, x <> S754_nan -> scaled (SFsub prec emax x (S754_zero sc)) = scaled x).
    { intros [s|s| |s m e] N; try congruence; try reflexivity.
      destruct s, sc; reflexivity. }
    now rewrite !Z in H.
  - exfalso.
    assert (I : forall x, SFsub prec emax x (S754_infinity sc) <> S754_nan ->
                          SFsub prec emax x (S754_infinity sc) = S754_infinity (negb sc)).
    { intros [s|s| |s m e] N; try reflexivity.
      - destruct s, sc; simpl in *; congruence.
      - simpl in N. congruence. }
    rewrite (I a Nac), (I b Nbc) in H. lia.
  - now rewrite sub_nan_r in Nac.
  - simpl in Vc.
    destruct (sub_scaled a sc mc ec Va Vc Na) as [_ Ea].
    destruct (sub_scaled b sc mc ec Vb Vc Nb) as [_ Eb].
    rewrite Ea, Eb in H.
    destruct (Z_lt_le_dec (scaled a) (scaled b)) as [L|L]; [exact L|].
    pose proof (difference_mono (S754_finite sc mc ec) b a Vb Va Nb Na L). lia.
Qed.

Lemma sub_ltb (a b c : float) :
  PrimFloat.ltb (a - c) (b - c) = true -> PrimFloat.ltb a b = true.
Proof.
  rewrite !ltb_spec, !sub_spec.
  apply (SFsub_ltb (Prim2SF a) (Prim2SF b) (Prim2SF c)); try apply Prim2SF_valid.
  - change (valid_binary (SF64sub (Prim2SF a) (Prim2SF c)) = true).
    rewrite <- sub_spec. apply Prim2SF_valid.
  - change (valid_binary (SF64sub (Prim2SF b) (Prim2SF c)) = true).
    rewrite <- sub_spec. apply Prim2SF_valid.
Qed.

End FloatSub.

(** ** Selection by key *)

Section Select.

Variables better noworse : float -> float -> bool.
Variable ok : float -> Prop.

Hypothesis nw_refl : forall a, ok a -> noworse a a = true.
Hypothesis bt_nw : forall a b, better a b = true -> noworse a b = true.
Hypothesis nw_bt : forall a b c,
    noworse a b = true -> better b c = true -> better a c = true.
Hypothesis bt_nw_trans : forall a b c,
    better a b = true -> noworse b c = true -> better a c = true.
Hypothesis total : forall a b,
    ok a -> ok b -> better b a = false -> noworse a b = true.

(** The selected item is the first one that nothing beats: what precedes
    it is strictly worse, what follows is no better. *)
Lemma select_by_split items : forall best,
    ok best -> Forall ok items ->
    exists pre post,
      best :: items = pre ++ select_by better best items :: post
      /\ Forall (fun x => better (select_by better best items) x = true) pre
      /\ Forall (fun x => noworse (select_by better best items) x = true) post.
Proof.
  induction items as [|item rest IH]; intros best Hb Hok; simpl.
  - exists [], []. repeat split; constructor.
  - inversion Hok as [|? ? Hi Hr]; subst.
    destruct (better item best) eqn:E.
    + destruct (IH item Hi Hr) as (pre & post & Heq & Hpre & Hpost).
      remember (select_by better item rest) as r.
      exists (best :: pre), post. split; [simpl; now rewrite Heq|]. split; [|exact Hpost].
      constructor; [|exact Hpre].
      apply nw_bt with item; [|exact E].
      destruct pre as [|p pre']; simpl in Heq.
      * injection Heq as Hh _. rewrite <- Hh. now apply nw_refl.
      * injection Heq as Hh _. subst p. inversion Hpre; subst. now apply bt_nw.
    + destruct (IH best Hb Hr) as (pre & post & Heq & Hpre & Hpost).
      remember (select_by better best rest) as r.
      assert (Hbi : noworse best item = true) by now apply total.
      destruct pre as [|p pre']; simpl in Heq.
      * injection Heq as Hh Ht. exists [], (item :: rest). simpl.
        split; [now rewrite <- Hh|]. split; [constructor|].
        rewrite <- Hh. constructor; [exact Hbi|].
        rewrite Ht, Hh. exact Hpost.
      * injection Heq as Hh Ht. subst p.
        exists (best :: item :: pre'), post. simpl. split; [now rewrite Ht|].
        split; [|exact Hpost].
        inversion Hpre as [|? ? Hrb Hpre']; subst.
        constructor; [exact Hrb|]. constructor; [|exact Hpre'].
        now apply bt_nw_trans with best.
Qed.

End Select.

(** ** Minimum and maximum by magnitude *)

Lemma min_key_abs_earliest x rest :
  no_nan (x :: rest) ->
  earliest_smallest (select_by PyFloat.key_lt x rest) (x :: rest).
Proof.
  intros Hn. inversion Hn as [|? ? Hx Hr]; subst.
  apply (select_by_split PyFloat.key_lt PyFloat.key_le
           (fun v => PyFloat.is_nan v = false)); auto.
  - apply FloatOrder.key_le_refl.
  - apply FloatOrder.key_lt_le.
  - apply FloatOrder.key_le_lt_trans.
  - apply FloatOrder.key_lt_le_trans.
  - apply FloatOrder.key_total.
Qed.

Lemma max_key_abs_earliest x rest :
  no_nan (x :: rest) ->
  earliest_largest (select_by PyFloat.key_gt x rest) (x :: rest).
Proof.
  intros Hn. inversion Hn as [|? ? Hx Hr]; subst.
  apply (select_by_split PyFloat.key_gt (fun a b => PyFloat.key_le b a)
           (fun v => PyFloat.is_nan v = false)); auto.
  - apply FloatOrder.key_le_refl.
  - intros a b. apply FloatOrder.key_lt_le.
  - intros a b c H1 H2. unfold PyFloat.key_gt in *.
    now apply FloatOrder.key_lt_le_trans with b.
  - intros a b c H1 H2. unfold PyFloat.key_gt in *.
    now apply FloatOrder.key_le_lt_trans with b.
  - intros a b Ha Hb H. now apply FloatOrder.key_total.
Qed.

Lemma no_nan_in xs x : no_nan xs -> In x xs -> PyFloat.is_nan x = false.
Proof. intros H Hin. unfold no_nan in H. rewrite Forall_forall in H. now apply H. Qed.

Lemma earliest_smallest_is_smallest m xs :
  no_nan xs -> earliest_smallest m xs -> smallest_magnitude m xs.
Proof.
  intros Hn (pre & post & -> & Hpre & Hpost).
  assert (Hm : In m (pre ++ m :: post)) by (apply in_or_app; right; now left).
  split; [exact Hm|].
  intros x Hx. apply in_app_or in Hx. destruct Hx as [Hx|[<-|Hx]].
  - rewrite Forall_forall in Hpre. now apply FloatOrder.key_lt_le, Hpre.
  - apply FloatOrder.key_le_refl. now apply (no_nan_in _ _ Hn).
  - rewrite Forall_forall in Hpost. now apply Hpost.
Qed.

Lemma earliest_largest_is_largest m xs :
  no_nan xs -> earliest_largest m xs -> largest_magnitude m xs.
Proof.
  intros Hn (pre & post & -> & Hpre & Hpost).
  assert (Hm : In m (pre ++ m :: post)) by (apply in_or_app; right; now left).
  split; [exact Hm|].
  intros x Hx. apply in_app_or in Hx. destruct Hx as [Hx|[<-|Hx]].
  - rewrite Forall_forall in Hpre. now apply FloatOrder.key_lt_le, Hpre.
  - apply FloatOrder.key_le_refl. now apply (no_nan_in _ _ Hn).
  - rewrite Forall_forall in Hpost. now apply Hpost.
Qed.

(** C9. The summary printed with the drift plot holds, per axis, the
    element of the rate list with the smallest magnitude and the element
    with the largest magnitude, each as it stands in the list (sign
    included); on [-5.0, 3.2, -1.1] these are [-1.1] and [-5.0]. *)
Theorem min_max_by_magnitude :
  (forall (path : string) (s : state),
      timestamps s <> [] -> dxdt_values s <> [] -> dydt_values s <> [] ->
      no_nan (dxdt_values s) -> no_nan (dydt_values s) ->
      exists out min_dx max_dx min_dy max_dy,
        plot_drift path s = (out, inr tt)
        /\ In (Print (Summary path min_dx max_dx min_dy max_dy)) out
        /\ min_key_abs (dxdt_values s) = inr min_dx
        /\ max_key_abs (dxdt_values s) = inr max_dx
        /\ min_key_abs (dydt_values s) = inr min_dy
        /\ max_key_abs (dydt_values s) = inr max_dy
        /\ smallest_magnitude min_dx (dxdt_values s)
        /\ largest_magnitude max_dx (dxdt_values s)
        /\ smallest_magnitude min_dy (dydt_values s)
        /\ largest_magnitude max_dy (dydt_values s))
  /\ min_key_abs [(-5.0)%float; 3.2%float; (-1.1)%float] = inr (-1.1)%float
  /\ max_key_abs [(-5.0)%float; 3.2%float; (-1.1)%float] = inr (-5.0)%float.
Proof.
  split; [|split; vm_compute; reflexivity].
  intros path s Ht Hx Hy Hnx Hny. unfold plot_drift.
  destruct (timestamps s) as [|t ts]; [congruence|].
  destruct (dxdt_values s) as [|x xs]; [congruence|].
  destruct (dydt_values s) as [|y ys]; [congruence|].
  simpl.
  eexists _, (select_by PyFloat.key_lt x xs), (select_by PyFloat.key_gt x xs),
    (select_by PyFloat.key_lt y ys), (select_by PyFloat.key_gt y ys).
  split; [reflexivity|].
  split; [simpl; auto|].
  repeat (split; [reflexivity|]).
  repeat split.
  - now apply earliest_smallest_is_smallest, min_key_abs_earliest.
  - now apply earliest_smallest_is_smallest, min_key_abs_earliest.
  - now apply earliest_largest_is_largest, max_key_abs_earliest.
  - now apply earliest_largest_is_largest, max_key_abs_earliest.
  - now apply earliest_smallest_is_smallest, min_key_abs_earliest.
  - now apply earliest_smallest_is_smallest, min_key_abs_earliest.
  - now apply earliest_largest_is_largest, max_key_abs_earliest.
  - now apply earliest_largest_is_largest, max_key_abs_earliest.
Qed.

Lemma min_max_by_magnitude_witness :
  exists out min_dx max_dx min_dy max_dy,
    plot_drift "run.log" midnight_state = (out, inr tt)
    /\ In (Print (Summary "run.log" min_dx max_dx min_dy max_dy)) out
    /\ min_key_abs (dxdt_values midnight_state) = inr min_dx
    /\ max_key_abs (dxdt_values midnight_state) = inr max_dx
    /\ min_key_abs (dydt_values midnight_state) = inr min_dy
    /\ max_key_abs (dydt_values midnight_state) = inr max_dy
    /\ smallest_magnitude min_dx (dxdt_values midnight_state)
    /\ largest_magnitude max_dx (dxdt_values midnight_state)
    /\ smallest_magnitude min_dy (dydt_values midnight_state)
    /\ largest_magnitude max_dy (dydt_values midnight_state).
Proof.
  apply (proj1 min_max_by_magnitude "run.log"%string midnight_state);
    try (simpl; discriminate); repeat constructor.
Defined.

(** C10. Among items of equal extremal magnitude the earliest in the list
    is selected, by [min] and by [max] alike: every item before the
    selected one is strictly larger (for [max]: smaller) in magnitude.  On
    [5.0, -5.0] both return [5.0]. *)
Theorem ties_select_earliest :
  (forall xs : list float,
      xs <> [] -> no_nan xs ->
      exists mn mx,
        min_key_abs xs = inr mn /\ max_key_abs xs = inr mx
        /\ earliest_smallest mn xs /\ earliest_largest mx xs)
  /\ min_key_abs [5.0%float; (-5.0)%float] = inr 5.0%float
  /\ max_key_abs [5.0%float; (-5.0)%float] = inr 5.0%float.
Proof.
  split; [|split; vm_compute; reflexivity].
  intros [|x rest] Hne Hn; [congruence|].
  exists (select_by PyFloat.key_lt x rest), (select_by PyFloat.key_gt x rest).
  repeat split.
  - now apply min_key_abs_earliest.
  - now apply max_key_abs_earliest.
Qed.

Lemma ties_select_earliest_witness :
  exists mn mx,
    min_key_abs [3.0%float; (-2.0)%float; 2.0%float; (-3.0)%float] = inr mn
    /\ max_key_abs [3.0%float; (-2.0)%float; 2.0%float; (-3.0)%float] = inr mx
    /\ earliest_smallest mn [3.0%float; (-2.0)%float; 2.0%float; (-3.0)%float]
    /\ earliest_largest mx [3.0%float; (-2.0)%float; 2.0%float; (-3.0)%float].
Proof.
  apply (proj1 ties_select_earliest); [discriminate | repeat constructor].
Defined.

(** ** The header check *)

Lemma prefix_empty_r p : p <> EmptyString -> String.prefix p EmptyString = false.
Proof. destruct p; [congruence|reflexivity]. Qed.

Lemma prefix_rstrip s : forall p,
    ends_nonspace p = true -> String.prefix p (rstrip s) = String.prefix p s.
Proof.
  induction s as [|c r IH]; intros p Hp; [reflexivity|].
  destruct p as [|a p']; [discriminate|].
  destruct p' as [|b p''].
  - simpl in Hp. simpl.
    destruct (rstrip r) eqn:Er; [destruct (is_space c) eqn:Ec|]; simpl.
    + destruct (ascii_dec a c) as [->|]; [|reflexivity].
      rewrite Ec in Hp. discriminate.
    + destruct (ascii_dec a c); [now destruct r|reflexivity].
    + destruct (ascii_dec a c); [now destruct r|reflexivity].
  - assert (Hp' : ends_nonspace (String b p'') = true) by exact Hp.
    specialize (IH _ Hp').
    change (rstrip (String c r)) with
      (match rstrip r with
       | EmptyString => if is_space c then EmptyString else String c EmptyString
       | r' => String c r'
       end).
    destruct (rstrip r) eqn:Er.
    + rewrite prefix_empty_r in IH by discriminate.
      destruct (is_space c).
      * simpl. destruct (ascii_dec a c); [now rewrite <- IH | reflexivity].
      * simpl. destruct (ascii_dec a c); [now rewrite <- IH | reflexivity].
    + simpl. destruct (ascii_dec a c); [exact IH | reflexivity].
Qed.

Lemma contains_unfold p s :
  contains p s =
  (String.prefix p s
   || match s with EmptyString => false | String _ rest => contains p rest end).
Proof. destruct s; reflexivity. Qed.

Lemma contains_rstrip p s :
  ends_nonspace p = true -> contains p (rstrip s) = contains p s.
Proof.
  intros Hp. induction s as [|c r IH]; [reflexivity|].
  rewrite (contains_unfold p (String c r)), <- (prefix_rstrip (String c r) p Hp), <- IH.
  change (rstrip (String c r)) with
    (match rstrip r with
     | EmptyString => if is_space c then EmptyString else String c EmptyString
     | r' => String c r'
     end).
  destruct (rstrip r) eqn:Er.
  - destruct (is_space c).
    + rewrite contains_unfold. now rewrite orb_false_r, orb_diag.
    + now rewrite (contains_unfold p (String c EmptyString)).
  - now rewrite (contains_unfold p (String c (String a s))).
Qed.

Lemma contains_lstrip p s :
  starts_nonspace p = true -> contains p (lstrip s) = contains p s.
Proof.
  intros Hp. induction s as [|c r IH]; [reflexivity|].
  simpl lstrip. destruct (is_space c) eqn:Ec; [|reflexivity].
  rewrite IH, (contains_unfold p (String c r)).
  destruct p as [|a p']; [discriminate|]. simpl in Hp. simpl.
  destruct (ascii_dec a c) as [->|]; [|reflexivity].
  rewrite Ec in Hp. discriminate.
Qed.

Lemma contains_strip s : contains marker (strip s) = contains marker s.
Proof.
  unfold strip. rewrite contains_rstrip by reflexivity.
  now apply contains_lstrip.
Qed.

Lemma script_readable f : script (Readable f) = main f.
Proof. unfold script, open_file, bind, ret. now destruct (main f). Qed.

(** C6, as the script has it.  A file that [open_file()] has read and
    decoded as a whole and whose first line lacks the marker gets the
    invalid-logfile diagnostic and [sys.exit()], with nothing scanned and
    no plot call; such a file whose first line holds the marker goes on to
    the scan. *)
Theorem header_check (f : logfile) :
  (contains marker (first_line f) = false ->
   script (Readable f) = ([Print InvalidLogfile], inl SystemExit)
   /\ plot_calls (fst (script (Readable f))) = [])
  /\ (contains marker (first_line f) = true ->
      script (Readable f) = process (file_path f) (lines f)).
Proof.
  rewrite script_readable. unfold main, header_ok. rewrite contains_strip.
  split; intros ->; [split|]; reflexivity.
Qed.

Lemma header_check_witness :
  (script (Readable other_header_file)
   = ([Print InvalidLogfile], inl SystemExit)
   /\ plot_calls (fst (script (Readable other_header_file))) = [])
  /\ script (Readable midnight_file)
     = process (file_path midnight_file) (lines midnight_file).
Proof.
  split.
  - apply (proj1 (header_check other_header_file)).
    reflexivity.
  - apply (proj2 (header_check midnight_file)). reflexivity.
Defined.

(** C6 as the specification words it fails on [undecodable_file]: its
    first line is [SOME OTHER HEADER], without the marker, but the file
    holds bytes that the codec refuses, so [file.read()] in [open_file()]
    raises [UnicodeDecodeError] before the header is looked at and the
    diagnostic is never printed. *)
Lemma header_counterexample :
  selected_first_line undecodable_file = Some "SOME OTHER HEADER"%string
  /\ contains marker "SOME OTHER HEADER" = false
  /\ script undecodable_file = ([], inl UnicodeDecodeError)
  /\ ~ In (Print InvalidLogfile) (fst (script undecodable_file)).
Proof.
  repeat split. intros [].
Qed.

(** ** The scanning loop, step by step *)

Arguments candidate : simpl never.
Arguments day_transition : simpl never.
Arguments strptime : simpl never.

Lemma bind_inr {A B} (m : M A) (k : A -> M B) out b :
  bind m k = (out, inr b) ->
  exists o1 a o2, m = (o1, inr a) /\ k a = (o2, inr b) /\ out = o1 ++ o2.
Proof.
  unfold bind. destruct m as [o1 [e|a]]; [discriminate|].
  destruct (k a) as [o2 r] eqn:E. intros H. injection H as <- ->.
  now exists o1, a, o2.
Qed.

Lemma bind_inl {A B} (m : M A) (k : A -> M B) out e :
  bind m k = (out, inl e) ->
  m = (out, inl e)
  \/ exists o1 a o2, m = (o1, inr a) /\ k a = (o2, inl e) /\ out = o1 ++ o2.
Proof.
  unfold bind. destruct m as [o1 [e'|a]].
  - intros H. injection H as <- <-. now left.
  - destruct (k a) as [o2 r] eqn:E. intros H. injection H as <- ->.
    right. now exists o1, a, o2.
Qed.

(** The wafer-centre part of an iteration. *)
Lemma scan_centre_eq s l :
  scan_centre s l =
  match centrematch l with
  | None => ([], inr s)
  | Some g =>
      match geometry_mm g with
      | Some (c, sz) =>
          ([Print (Centre (nth 0 c 0%float) (nth 1 c 0%float));
            Print (Size (fst sz) (snd sz))], inr (set_centre s c sz))
      | None => ([], inl ValueError)
      end
  end.
Proof.
  unfold scan_centre. destruct (centrematch l) as [[[?|] [?|] [?|] [?|]]|]; reflexivity.
Qed.

(** The drift part prints nothing. *)
Lemma scan_drift_eq s l :
  scan_drift s l =
  match drift_match l with
  | None => ([], inr s)
  | Some g =>
      match candidate (date_vars s) g with
      | inl e => ([], inl e)
      | inr c =>
          match day_transition (previous_timestamp s) c with
          | inl e => ([], inl e)
          | inr t => ([], inr (add_sample s t (dxdt g) (dydt g)))
          end
      end
  end.
Proof.
  unfold scan_drift. destruct (drift_match l) as [g|]; [|reflexivity].
  unfold bind, lift, ret. destruct (candidate (date_vars s) g); [reflexivity|].
  destruct (day_transition (previous_timestamp s) d); reflexivity.
Qed.

(** The calibration-block part prints nothing and fails only in [int]. *)
Lemma scan_block_eq s l :
  scan_block s l = if int_accepts l then ([], inr (with_block s l)) else ([], inl ValueError).
Proof.
  unfold scan_block, int_accepts, with_block, block_of.
  now destruct (driftpos_match l) as [[[n|] x y]|].
Qed.

Lemma scan_line_inr s l out s' :
  scan_line s l = (out, inr s') ->
  exists s1 s2,
    scan_centre s l = (out, inr s1)
    /\ scan_drift (scan_date s1 l) l = ([], inr s2)
    /\ s' = with_block s2 l.
Proof.
  unfold scan_line. intros H.
  apply bind_inr in H. destruct H as (o1 & s1 & o2 & H1 & H2 & ->).
  apply bind_inr in H2. destruct H2 as (o3 & s2 & o4 & H3 & H4 & ->).
  rewrite scan_block_eq in H4. destruct (int_accepts l); [|discriminate].
  injection H4 as <- <-.
  assert (o3 = []) as ->.
  { rewrite scan_drift_eq in H3.
    destruct (drift_match l); [|now injection H3].
    destruct (candidate _ _); [discriminate|].
    destruct (day_transition _ _); [discriminate|]. now injection H3. }
  exists s1, s2. now rewrite !app_nil_r.
Qed.

Lemma scan_line_out s l :
  fst (scan_line s l) = fst (scan_centre s l).
Proof.
  unfold scan_line, bind. destruct (scan_centre s l) as [o1 [e|s1]]; [reflexivity|].
  rewrite scan_drift_eq.
  destruct (drift_match l); simpl;
    [|rewrite scan_block_eq; destruct (int_accepts l); simpl; now rewrite app_nil_r].
  destruct (candidate _ _); simpl; [now rewrite app_nil_r|].
  destruct (day_transition _ _); simpl; [now rewrite app_nil_r|].
  rewrite scan_block_eq; destruct (int_accepts l); simpl; now rewrite app_nil_r.
Qed.

Lemma scan_cons s l rest :
  scan s (l :: rest) = bind (scan_line s l) (fun s' => scan s' rest).
Proof. reflexivity. Qed.

Lemma scan_app ls1 : forall s ls2,
    scan s (ls1 ++ ls2) = bind (scan s ls1) (fun s' => scan s' ls2).
Proof.
  induction ls1 as [|l rest IH]; intros s ls2.
  - simpl. unfold bind, ret. now destruct (scan s ls2).
  - change ((l :: rest) ++ ls2) with (l :: (rest ++ ls2)).
    rewrite !scan_cons. unfold bind at 1 3.
    destruct (scan_line s l) as [o1 [e|s1]]; [reflexivity|].
    rewrite IH. unfold bind.
    destruct (scan s1 rest) as [o2 [e|s2]]; [reflexivity|].
    destruct (scan s2 ls2) as [o3 r]. now rewrite app_assoc.
Qed.

(** The loop only prints the centre and the size. *)
Lemma scan_prints ls : forall s,
    forallb is_geometry_print (fst (scan s ls)) = true.
Proof.
  induction ls as [|l rest IH]; intros s; [reflexivity|].
  rewrite scan_cons. unfold bind.
  pose proof (scan_line_out s l) as Ho.
  destruct (scan_line s l) as [o1 [e|s1]]; simpl in Ho; subst o1.
  - simpl. rewrite scan_centre_eq.
    destruct (centrematch l) as [g|]; [|reflexivity].
    now destruct (geometry_mm g) as [[c sz]|].
  - specialize (IH s1). destruct (scan s1 rest) as [o2 r]. simpl in *.
    rewrite forallb_app, IH, andb_true_r. rewrite scan_centre_eq.
    destruct (centrematch l) as [g|]; [|reflexivity].
    now destruct (geometry_mm g) as [[c sz]|].
Qed.

Lemma geometry_no_plot out :
  forallb is_geometry_print out = true ->
  plot_calls out = [] /\ reported out = [] /\ ~ In (Print NoDriftPoints) out.
Proof.
  induction out as [|e out IH]; simpl; [intros _; repeat split; tauto|].
  intros H. apply andb_prop in H. destruct H as [He Ho].
  destruct (IH Ho) as (I1 & I2 & I3).
  destruct e as [[]|]; try discriminate; simpl; rewrite ?I2;
    (repeat split; [assumption| ]); intros [D|D]; try discriminate; tauto.
Qed.

(** What a completed iteration leaves in the variables. *)
Lemma scan_line_fields s l out s' :
  scan_line s l = (out, inr s') ->
  drift_data_found s' = drift_data_found s || matches_drift l
  /\ drift_pos_data s' = drift_pos_data s ++ blocks_of [l]
  /\ date_vars s' = match datematch l with Some g => Some g | None => date_vars s end
  /\ match centrematch l with
     | None => wafer_centre s' = wafer_centre s /\ size_xy s' = size_xy s
     | Some g => exists c sz, geometry_mm g = Some (c, sz)
                              /\ wafer_centre s' = c /\ size_xy s' = Some sz
     end.
Proof.
  intros H. apply scan_line_inr in H. destruct H as (s1 & s2 & H1 & H2 & ->).
  rewrite scan_centre_eq in H1. rewrite scan_drift_eq in H2.
  unfold scan_date, blocks_of in *. simpl flat_map.
  assert (Hc : match centrematch l with
               | None => s1 = s
               | Some g => exists c sz, geometry_mm g = Some (c, sz) /\ s1 = set_centre s c sz
               end).
  { destruct (centrematch l) as [g|]; [|now injection H1].
    destruct (geometry_mm g) as [[c sz]|]; [|discriminate].
    injection H1 as _ <-. now exists c, sz. }
  assert (Hs2 : drift_data_found s2 = drift_data_found s1
                  || matches_drift l
                /\ drift_pos_data s2 = drift_pos_data s1
                /\ date_vars s2 = match datematch l with Some g => Some g | None => date_vars s1 end
                /\ wafer_centre s2 = wafer_centre s1 /\ size_xy s2 = size_xy s1).
  { unfold matches_drift. destruct (drift_match l) as [g|].
    - destruct (candidate _ g); [discriminate|].
      destruct (day_transition _ _); [discriminate|].
      injection H2 as <-. simpl. rewrite orb_true_r.
      destruct (datematch l); simpl; auto.
    - injection H2 as <-. rewrite orb_false_r.
      destruct (datematch l); simpl; auto. }
  destruct Hs2 as (F1 & F2 & F3 & F4 & F5).
  assert (Hb : forall s0 : state,
             drift_pos_data (with_block s0 l) = drift_pos_data s0 ++ block_of l ++ []
             /\ drift_data_found (with_block s0 l) = drift_data_found s0
             /\ date_vars (with_block s0 l) = date_vars s0
             /\ wafer_centre (with_block s0 l) = wafer_centre s0
             /\ size_xy (with_block s0 l) = size_xy s0).
  { intros s0. unfold with_block, block_of.
    destruct (driftpos_match l) as [[[n|] x y]|]; simpl; rewrite ?app_nil_r; auto. }
  destruct (Hb s2) as (G2 & G1 & G3 & G4 & G5).
  repeat split.
  - rewrite G1, F1.
    destruct (centrematch l) as [g|]; [destruct Hc as (c & sz & _ & ->)|subst s1]; reflexivity.
  - rewrite G2, F2.
    destruct (centrematch l) as [g|]; [destruct Hc as (c & sz & _ & ->)|subst s1]; reflexivity.
  - rewrite G3, F3.
    destruct (centrematch l) as [g|]; [destruct Hc as (c & sz & _ & ->)|subst s1]; reflexivity.
  - destruct (centrematch l) as [g|].
    + destruct Hc as (c & sz & Hg & ->). exists c, sz.
      rewrite G4, G5, F4, F5; auto.
    + subst s1. rewrite G4, G5, F4, F5; auto.
Qed.

Lemma fold_last {A B} (f : A -> option B) ls : forall acc,
    fold_left (fun acc l => match f l with Some g => Some g | None => acc end) ls acc
    = match fold_left (fun acc l => match f l with Some g => Some g | None => acc end) ls None with
      | Some g => Some g
      | None => acc
      end.
Proof.
  induction ls as [|l rest IH]; intros acc; [reflexivity|].
  simpl. rewrite IH. rewrite (IH (match f l with Some g => Some g | None => None end)).
  destruct (fold_left _ rest None); [reflexivity|]. now destruct (f l).
Qed.

Lemma last_centre_cons l rest :
  last_centre (l :: rest) =
  match last_centre rest with Some g => Some g | None => centrematch l end.
Proof.
  unfold last_centre. simpl. rewrite fold_last.
  destruct (fold_left _ rest None); [reflexivity|]. now destruct (centrematch l).
Qed.

Lemma most_recent_date_cons l rest :
  most_recent_date (l :: rest) =
  match most_recent_date rest with Some g => Some g | None => datematch l end.
Proof.
  unfold most_recent_date. simpl. rewrite fold_last.
  destruct (fold_left _ rest None); [reflexivity|]. now destruct (datematch l).
Qed.

(** What a completed scan leaves in the variables. *)
Lemma scan_fields ls : forall s out s',
    scan s ls = (out, inr s') ->
    drift_data_found s' = drift_data_found s || existsb matches_drift ls
    /\ drift_pos_data s' = drift_pos_data s ++ blocks_of ls
    /\ date_vars s' = match most_recent_date ls with Some g => Some g | None => date_vars s end
    /\ match last_centre ls with
       | None => wafer_centre s' = wafer_centre s /\ size_xy s' = size_xy s
       | Some g => exists c sz, geometry_mm g = Some (c, sz)
                                /\ wafer_centre s' = c /\ size_xy s' = Some sz
       end.
Proof.
  induction ls as [|l rest IH]; intros s out s' H.
  - injection H as _ <-. simpl. rewrite orb_false_r, app_nil_r. auto.
  - rewrite scan_cons in H. apply bind_inr in H.
    destruct H as (o1 & s1 & o2 & H1 & H2 & ->).
    apply scan_line_fields in H1. destruct H1 as (A1 & A2 & A3 & A4).
    apply IH in H2. destruct H2 as (B1 & B2 & B3 & B4).
    rewrite last_centre_cons, most_recent_date_cons.
    repeat split.
    + rewrite B1, A1. simpl. now rewrite orb_assoc.
    + rewrite B2, A2. change (l :: rest) with ([l] ++ rest).
      unfold blocks_of. now rewrite flat_map_app, app_assoc.
    + rewrite B3, A3. now destruct (most_recent_date rest).
    + destruct (last_centre rest) as [g|]; [exact B4|].
      destruct B4 as [-> ->]. exact A4.
Qed.

(** The loop never calls [sys.exit()]. *)
Lemma candidate_raises vars g e :
  candidate vars g = inl e -> e = NameError \/ e = ValueError.
Proof.
  unfold candidate, strptime. destruct vars as [d|]; [|intros H; injection H as <-; now left].
  intros H. right.
  repeat match type of H with
         | context [match ?x with _ => _ end] => destruct x
         end; try discriminate; now injection H.
Qed.

Lemma day_transition_raises p t e :
  day_transition p t = inl e -> e = OverflowError.
Proof.
  unfold day_transition, add_days. intros H.
  repeat match type of H with
         | context [match ?x with _ => _ end] => destruct x
         | context [if ?x then _ else _] => destruct x
         end; try discriminate; now injection H.
Qed.

Lemma scan_line_raises s l out e :
  scan_line s l = (out, inl e) -> e <> SystemExit.
Proof.
  unfold scan_line. intros H. apply bind_inl in H.
  destruct H as [H|(o1 & s1 & o2 & H1 & H2 & ->)].
  - rewrite scan_centre_eq in H. destruct (centrematch l) as [g|]; [|discriminate].
    destruct (geometry_mm g) as [[c sz]|]; [discriminate|]. injection H as _ <-. discriminate.
  - apply bind_inl in H2. destruct H2 as [H2|(o3 & s2 & o4 & _ & H4 & _)].
    2:{ rewrite scan_block_eq in H4. destruct (int_accepts l); [discriminate|].
        injection H4 as _ <-. discriminate. }
    rewrite scan_drift_eq in H2. destruct (drift_match l) as [g|]; [|discriminate].
    destruct (candidate _ g) eqn:Ec.
    + injection H2 as _ <-. apply candidate_raises in Ec. destruct Ec; subst; discriminate.
    + destruct (day_transition _ _) eqn:Ed; [|discriminate].
      injection H2 as _ <-. apply day_transition_raises in Ed. subst. discriminate.
Qed.

Lemma scan_raises ls : forall s out e,
    scan s ls = (out, inl e) -> e <> SystemExit.
Proof.
  induction ls as [|l rest IH]; intros s out e H; [discriminate|].
  rewrite scan_cons in H. apply bind_inl in H.
  destruct H as [H|(o1 & s1 & o2 & _ & H2 & _)].
  - now apply scan_line_raises in H.
  - now apply IH in H2.
Qed.

Lemma process_eq path ls : process path ls = bind (scan initial ls) (after_scan path).
Proof. reflexivity. Qed.

(** ** Sorting *)

Lemma insert_perm x l : Permutation (insert x l) (x :: l).
Proof.
  induction l as [|y rest IH]; simpl; [reflexivity|].
  destruct (key_lt y x); [|reflexivity].
  rewrite IH. apply perm_swap.
Qed.

Lemma sorted_perm l : Permutation (sorted l) l.
Proof.
  induction l as [|x rest IH]; simpl; [reflexivity|].
  rewrite insert_perm. now constructor.
Qed.

Lemma sorted_nonempty l : l <> [] -> sorted l <> [].
Proof.
  intros Hl Hs. pose proof (sorted_perm l) as P. rewrite Hs in P.
  apply Permutation_nil in P. contradiction.
Qed.

Lemma key_lt_asym a b : key_lt a b = true -> key_lt b a = false.
Proof.
  destruct a as [[n1 x1] y1], b as [[n2 x2] y2]. unfold key_lt.
  rewrite (Z.eqb_sym n2 n1), (FloatOrder.eqb_sym x2 x1), (FloatOrder.eqb_sym y2 y1).
  destruct (n1 =? n2) eqn:En; simpl.
  - destruct (PrimFloat.eqb x1 x2); simpl.
    + destruct (PrimFloat.eqb y1 y2); simpl; [discriminate|].
      apply FloatOrder.ltb_asym.
    + apply FloatOrder.ltb_asym.
  - rewrite !Z.ltb_lt, Z.ltb_ge. lia.
Qed.

Lemma insert_ascending x l : ascending l -> ascending (insert x l).
Proof.
  unfold ascending. induction l as [|y rest IH]; intros H; simpl.
  - repeat constructor.
  - destruct (key_lt y x) eqn:E.
    + inversion H as [|? ? Hs Hh]; subst. constructor; [now apply IH|].
      destruct rest as [|z rest']; simpl.
      * constructor. now apply key_lt_asym.
      * destruct (key_lt z x); constructor.
        -- inversion Hh; now subst.
        -- now apply key_lt_asym.
    + constructor; [exact H|]. now constructor.
Qed.

Lemma sorted_ascending l : ascending (sorted l).
Proof.
  induction l as [|x rest IH]; simpl; [constructor|]. now apply insert_ascending.
Qed.

(** Sorting an ascending list leaves it as it is. *)
Lemma ascending_sorted l : ascending l -> sorted l = l.
Proof.
  unfold ascending. induction l as [|x rest IH]; intros H; [reflexivity|].
  inversion H as [|? ? Hs Hh]; subst. simpl. rewrite (IH Hs).
  destruct rest as [|y rest']; [reflexivity|]. simpl.
  inversion Hh as [|? ? Hxy]; subst. now rewrite Hxy.
Qed.

Lemma relative_eq c0 c1 l :
  relative_drift_pos_data [c0; c1] l = inr (map (translate c0 c1) l).
Proof.
  induction l as [|[[n x] y] rest IH]; [reflexivity|].
  simpl. now rewrite IH.
Qed.

Lemma relative_no_centre b l :
  relative_drift_pos_data [] (b :: l) = inl IndexError.
Proof. now destruct b as [[n x] y]. Qed.

(** ** Missing wafer centre *)

Lemma no_centre_last ls :
  existsb matches_centre ls = false -> last_centre ls = None.
Proof.
  induction ls as [|l rest IH]; [reflexivity|].
  simpl. intros H. apply orb_false_elim in H. destruct H as [Hl Hr].
  rewrite last_centre_cons, (IH Hr). unfold matches_centre in Hl.
  now destruct (centrematch l).
Qed.

Lemma no_centre_silent ls : forall s,
    existsb matches_centre ls = false -> fst (scan s ls) = [].
Proof.
  induction ls as [|l rest IH]; intros s H; [reflexivity|].
  simpl in H. apply orb_false_elim in H. destruct H as [Hl Hr].
  rewrite scan_cons. pose proof (scan_line_out s l) as Ho.
  rewrite scan_centre_eq in Ho. unfold matches_centre in Hl.
  destruct (centrematch l); [discriminate|]. simpl in Ho.
  unfold bind. destruct (scan_line s l) as [o1 [e|s1]]; simpl in Ho; subst o1; [reflexivity|].
  specialize (IH s1 Hr). destruct (scan s1 rest) as [o2 r]. simpl in *. now subst.
Qed.

(** A completed scan has converted every block number it met. *)
Lemma scan_int_accepts ls : forall s out s',
    scan s ls = (out, inr s') -> forallb int_accepts ls = true.
Proof.
  induction ls as [|l rest IH]; intros s out s' H; [reflexivity|].
  rewrite scan_cons in H. apply bind_inr in H.
  destruct H as (o1 & s1 & o2 & H1 & H2 & _).
  simpl. rewrite (IH _ _ _ H2), andb_true_r.
  unfold scan_line in H1. apply bind_inr in H1.
  destruct H1 as (o3 & s3 & o4 & _ & H4 & _).
  apply bind_inr in H4. destruct H4 as (o5 & s5 & o6 & _ & H6 & _).
  rewrite scan_block_eq in H6. now destruct (int_accepts l).
Qed.

Lemma blocks_nonempty ls :
  forallb int_accepts ls = true ->
  existsb matches_block ls = true -> blocks_of ls <> [].
Proof.
  induction ls as [|l rest IH]; [discriminate|].
  simpl. unfold matches_block at 1, int_accepts at 1, blocks_of, block_of at 1.
  destruct (driftpos_match l) as [[[n|] x y]|]; simpl; try discriminate.
  exact IH.
Qed.

(** C8, as the script has it.  A log with a valid header, a drift line and
    a calibration block but no wafer-centre line ends in an uncaught
    exception before anything is printed or plotted: the [IndexError] of
    [wafer_centre[0]] in position normalisation when the scanning loop
    completes, and otherwise the exception that stopped the loop. *)
Theorem missing_centre_crashes (f : logfile) :
  header_ok f = true ->
  existsb matches_drift (lines f) = true ->
  existsb matches_block (lines f) = true ->
  existsb matches_centre (lines f) = false ->
  exists e,
    main f = ([], inl e) /\ e <> SystemExit
    /\ (forall out s, scan initial (lines f) = (out, inr s) -> e = IndexError)
    /\ (forall out e', scan initial (lines f) = (out, inl e') -> e = e').
Proof.
  intros Hh Hd Hb Hc. unfold main. rewrite Hh, process_eq.
  pose proof (no_centre_silent (lines f) initial Hc) as Hout.
  destruct (scan initial (lines f)) as [out [e|s]] eqn:E; simpl in Hout; subst out.
  - exists e. split; [reflexivity|]. split; [now apply scan_raises in E|].
    split; [intros out s H; discriminate|].
    intros out e' H. now injection H.
  - exists IndexError.
    split; [|split; [discriminate|split; [reflexivity|intros out e' H; discriminate]]].
    destruct (scan_fields _ _ _ _ E) as (F1 & F2 & _ & F4).
    rewrite (no_centre_last _ Hc) in F4. destruct F4 as [Fw _].
    simpl in F1, F2, Fw. unfold bind at 1. unfold after_scan.
    rewrite F1, Hd. unfold plot_positions. rewrite Fw, F2.
    pose proof (sorted_nonempty _ (blocks_nonempty _ (scan_int_accepts _ _ _ _ E) Hb)) as Hs.
    destruct (sorted (blocks_of (lines f))) as [|b bs]; [congruence|].
    rewrite relative_no_centre. reflexivity.
Qed.

Lemma missing_centre_crashes_witness :
  exists e,
    main no_centre_file = ([], inl e) /\ e <> SystemExit
    /\ (forall out s, scan initial (lines no_centre_file) = (out, inr s) -> e = IndexError)
    /\ (forall out e', scan initial (lines no_centre_file) = (out, inl e') -> e = e').
Proof.
  apply (missing_centre_crashes no_centre_file); reflexivity.
Defined.

(** C8 as the specification words it fails on [no_date_file], which meets
    its conditions: the drift line is reached with [dyear] unbound, so the
    scanning loop raises [NameError] and position normalisation never
    runs. *)
Lemma missing_centre_counterexample :
  header_ok no_date_file = true
  /\ existsb matches_drift (lines no_date_file) = true
  /\ existsb matches_block (lines no_date_file) = true
  /\ existsb matches_centre (lines no_date_file) = false
  /\ scan initial (lines no_date_file) = ([], inl NameError)
  /\ main no_date_file = ([], inl NameError)
  /\ main no_date_file <> ([], inl IndexError).
Proof.
  repeat split; try (vm_compute; reflexivity).
  vm_compute. discriminate.
Qed.

(** ** No drift line *)

Lemma scan_line_no_drift s l :
  matches_drift l = false -> parsable l = true -> int_accepts l = true ->
  exists out s', scan_line s l = (out, inr s').
Proof.
  unfold matches_drift, parsable, int_accepts, scan_line, scan_centre, scan_drift, scan_block.
  destruct (drift_match l); [discriminate|]. intros _.
  destruct (centrematch l) as [[[?|] [?|] [?|] [?|]]|]; try discriminate; intros _;
    destruct (driftpos_match l) as [[[n|] x y]|]; try discriminate; intros _;
    simpl; eauto.
Qed.

Lemma no_drift_completes ls : forall s,
    existsb matches_drift ls = false -> forallb parsable ls = true ->
    forallb int_accepts ls = true ->
    exists out s', scan s ls = (out, inr s').
Proof.
  induction ls as [|l rest IH]; intros s Hd Hp Hn; [now exists [], s|].
  simpl in Hd, Hp, Hn. apply orb_false_elim in Hd. destruct Hd as [Hd Hdr].
  apply andb_prop in Hp. destruct Hp as [Hp Hpr].
  apply andb_prop in Hn. destruct Hn as [Hn Hnr].
  destruct (scan_line_no_drift s l Hd Hp Hn) as (o1 & s1 & E1).
  destruct (IH s1 Hdr Hpr Hnr) as (o2 & s2 & E2).
  rewrite scan_cons, E1. unfold bind. rewrite E2. eauto.
Qed.

(** C7, as the script has it.  For a file that is read and decoded and has
    a valid header: when no line matches the drift pattern, every
    wafer-centre match holds numbers that [float()] accepts and every
    calibration-block match holds a number that [int()] accepts, the
    script prints the centre and size it met, then the no-drift
    diagnostic, and exits without a plot call; and whenever the scanning
    loop completes, the check passes exactly when some line matches the
    drift pattern. *)
Theorem no_drift_check (f : logfile) :
  header_ok f = true ->
  (existsb matches_drift (lines f) = false ->
   forallb parsable (lines f) = true ->
   forallb int_accepts (lines f) = true ->
   exists out,
     script (Readable f) = (out ++ [Print NoDriftPoints], inl SystemExit)
     /\ forallb is_geometry_print out = true
     /\ plot_calls (fst (script (Readable f))) = [])
  /\ (forall out s,
         scan initial (lines f) = (out, inr s) ->
         drift_data_found s = existsb matches_drift (lines f)
         /\ (existsb matches_drift (lines f) = true ->
             script (Readable f)
             = bind (out, inr s) (fun s => plot_positions s ;;; plot_drift (file_path f) s))).
Proof.
  intros Hh. rewrite script_readable. unfold main. rewrite Hh, process_eq. split.
  - intros Hd Hp Hn.
    destruct (no_drift_completes _ initial Hd Hp Hn) as (out & s & E).
    pose proof (scan_prints (lines f) initial) as Hg. rewrite E in Hg. simpl in Hg.
    destruct (scan_fields _ _ _ _ E) as (F1 & _). rewrite Hd in F1. simpl in F1.
    assert (Hm : bind (scan initial (lines f)) (after_scan (file_path f))
                 = (out ++ [Print NoDriftPoints], inl SystemExit)).
    { rewrite E. unfold bind at 1. unfold after_scan. now rewrite F1. }
    exists out. rewrite Hm. split; [reflexivity|]. split; [exact Hg|].
    unfold plot_calls. simpl. rewrite filter_app. simpl. rewrite app_nil_r.
    now apply geometry_no_plot.
  - intros out s E. destruct (scan_fields _ _ _ _ E) as (F1 & _). simpl in F1.
    split; [exact F1|]. intros Hd. rewrite E. unfold bind at 1 3.
    unfold after_scan. rewrite F1, Hd. unfold bind at 2. simpl.
    destruct (plot_positions s) as [o [e|u]]; [reflexivity|].
    now destruct (plot_drift (file_path f) s).
Qed.

Lemma no_drift_check_witness :
  (exists out,
      script (Readable no_drift_file) = (out ++ [Print NoDriftPoints], inl SystemExit)
      /\ forallb is_geometry_print out = true
      /\ plot_calls (fst (script (Readable no_drift_file))) = [])
  /\ (forall out s,
         scan initial (lines midnight_file) = (out, inr s) ->
         drift_data_found s = existsb matches_drift (lines midnight_file)
         /\ (existsb matches_drift (lines midnight_file) = true ->
             script (Readable midnight_file)
             = bind (out, inr s) (fun s => plot_positions s ;;; plot_drift (file_path midnight_file) s))).
Proof.
  split.
  - apply (proj1 (no_drift_check no_drift_file eq_refl)); reflexivity.
  - apply (proj2 (no_drift_check midnight_file eq_refl)).
Defined.

(** C7 as the specification words it fails on [bad_centre_file] and on
    [long_block_file]: the header is valid and no line matches the drift
    pattern, yet the run ends in a [ValueError] inside the scanning loop
    and the diagnostic is never printed. *)
Lemma no_drift_counterexample :
  (header_ok bad_centre_file = true
   /\ existsb matches_drift (lines bad_centre_file) = false
   /\ script (Readable bad_centre_file) = ([], inl ValueError)
   /\ ~ In (Print NoDriftPoints) (fst (script (Readable bad_centre_file))))
  /\ (header_ok long_block_file = true
      /\ existsb matches_drift (lines long_block_file) = false
      /\ forallb parsable (lines long_block_file) = true
      /\ script (Readable long_block_file)
         = ([Print (Centre 75 75); Print (Size 150 150)], inl ValueError)
      /\ ~ In (Print NoDriftPoints) (fst (script (Readable long_block_file)))).
Proof.
  split.
  - repeat split. vm_compute. tauto.
  - repeat split. vm_compute. intros [H|[H|[]]]; discriminate.
Qed.

(** ** Wafer geometry *)

(** C4, as the script has it.  Every matching line overwrites the centre
    and the size: after a completed scan they are those of the last line
    that matches the wafer-centre pattern, divided by 1000. *)
Theorem last_centre_wins (ls : list line) (out : list event) (s : state)
        (g : centre_groups) :
  scan initial ls = (out, inr s) ->
  last_centre ls = Some g ->
  exists cx cy sx sy,
    g = {| centre_x_um := Some cx; centre_y_um := Some cy;
           size_x_um := Some sx; size_y_um := Some sy |}
    /\ wafer_centre s = [cx / 1000; cy / 1000]%float
    /\ size_xy s = Some (sx / 1000, sy / 1000)%float.
Proof.
  intros E Hl. destruct (scan_fields _ _ _ _ E) as (_ & _ & _ & F).
  rewrite Hl in F. destruct F as (c & sz & Hg & Hw & Hs).
  destruct g as [[cx|] [cy|] [sx|] [sy|]]; try discriminate.
  injection Hg as <- <-. now exists cx, cy, sx, sy.
Qed.

Lemma last_centre_wins_witness :
  exists cx cy sx sy,
    {| centre_x_um := Some 5000%float; centre_y_um := Some 6000%float;
       size_x_um := Some 100000%float; size_y_um := Some 100000%float |}
    = {| centre_x_um := Some cx; centre_y_um := Some cy;
         size_x_um := Some sx; size_y_um := Some sy |}
    /\ wafer_centre two_centres_state = [cx / 1000; cy / 1000]%float
    /\ size_xy two_centres_state = Some (sx / 1000, sy / 1000)%float.
Proof.
  apply (last_centre_wins two_centres_log
           [Print (Centre 1 2); Print (Size 150 150);
            Print (Centre 5 6); Print (Size 100 100)]);
    vm_compute; reflexivity.
Defined.

(** C4 as the specification words it fails on [two_centres_log]: the
    first matching line gives the centre (1, 2) mm and the size
    (150, 150) mm, but after the scan the centre is (5, 6) mm and the size
    (100, 100) mm, those of the second matching line. *)
Lemma first_match_counterexample :
  exists g out,
    first_centre two_centres_log = Some g
    /\ geometry_mm g = Some ([1; 2]%float, (150, 150)%float)
    /\ scan initial two_centres_log = (out, inr two_centres_state)
    /\ wafer_centre two_centres_state = [5; 6]%float
    /\ size_xy two_centres_state = Some (100, 100)%float
    /\ wafer_centre two_centres_state <> [1; 2]%float.
Proof.
  eexists _, _. repeat split; try (vm_compute; reflexivity).
  intros H.
  apply (f_equal (fun c => match c with x :: _ => PrimFloat.eqb x 1 | [] => false end)) in H.
  vm_compute in H. discriminate.
Qed.

(** ** Relative positions *)

Lemma reported_app o1 o2 : reported (o1 ++ o2) = reported o1 ++ reported o2.
Proof. unfold reported. apply flat_map_app. Qed.

Lemma reported_cons e o :
  reported (e :: o)
  = match e with Print (Relative x y) => [(x, y)] | _ => [] end ++ reported o.
Proof. reflexivity. Qed.

Lemma reported_print_relative l :
  reported (map print_relative l) = map (fun b : block => (snd (fst b), snd b)) l.
Proof.
  induction l as [|[[n x] y] rest IH]; [reflexivity|].
  cbn [map]. rewrite reported_cons, IH. reflexivity.
Qed.

Lemma reported_scatter l : reported (map scatter_relative l) = [].
Proof.
  induction l as [|[[n x] y] rest IH]; [reflexivity|].
  cbn [map]. rewrite reported_cons, IH. reflexivity.
Qed.

Lemma set_limits_eq call lo hi :
  set_limits call lo hi
  = if is_finite lo && is_finite hi then ([Plot (call lo hi)], inr tt)
    else ([], inl ValueError).
Proof. unfold set_limits. now destruct (is_finite lo && is_finite hi). Qed.

(** The positions plot, with the centre and the size bound: it stops at
    [plt.xlim] or [plt.ylim] when a limit is not finite. *)
Lemma plot_positions_eq s c0 c1 sz :
  wafer_centre s = [c0; c1] -> size_xy s = Some sz ->
  plot_positions s =
  if is_finite (- fst sz / 2) && is_finite (fst sz / 2) then
    if is_finite (- snd sz / 2) && is_finite (snd sz / 2) then
      (Print RelativeHeader
         :: map print_relative (sorted (map (translate c0 c1) (sorted (drift_pos_data s))))
         ++ Plot Figure
         :: Plot (Xlim (- fst sz / 2) (fst sz / 2))%float
         :: Plot (Ylim (- snd sz / 2) (snd sz / 2))%float
         :: map scatter_relative (sorted (map (translate c0 c1) (sorted (drift_pos_data s))))
         ++ [Plot ScatterCentre;
             Plot (Xlabel "X (mm)"); Plot (Ylabel "Y (mm)");
             Plot (Title "Drift Calibration Positions Relative to Wafer Center");
             Plot Legend; Plot Grid; Plot Show], inr tt)
    else
      (Print RelativeHeader
         :: map print_relative (sorted (map (translate c0 c1) (sorted (drift_pos_data s))))
         ++ [Plot Figure; Plot (Xlim (- fst sz / 2) (fst sz / 2))%float], inl ValueError)
  else
    (Print RelativeHeader
       :: map print_relative (sorted (map (translate c0 c1) (sorted (drift_pos_data s))))
       ++ [Plot Figure], inl ValueError).
Proof.
  intros Hw Hs. unfold plot_positions. rewrite Hw, Hs, relative_eq.
  unfold set_limits, lift, unbound, bind, ret, emit, emit_all.
  destruct (is_finite (- fst sz / 2) && is_finite (fst sz / 2));
    [destruct (is_finite (- snd sz / 2) && is_finite (snd sz / 2))|]; reflexivity.
Qed.

Lemma reported_plot_positions s c0 c1 sz :
  wafer_centre s = [c0; c1] -> size_xy s = Some sz ->
  reported (fst (plot_positions s))
  = map (fun b : block => (snd (fst b), snd b))
        (sorted (map (translate c0 c1) (sorted (drift_pos_data s)))).
Proof.
  intros Hw Hs. rewrite (plot_positions_eq s c0 c1 sz Hw Hs).
  destruct (is_finite (- fst sz / 2) && is_finite (fst sz / 2));
    [destruct (is_finite (- snd sz / 2) && is_finite (snd sz / 2))|]; simpl fst;
    change (Print RelativeHeader :: ?l) with ([Print RelativeHeader] ++ l);
    rewrite reported_app, reported_app, reported_print_relative;
    simpl; rewrite ?reported_app, ?reported_scatter; simpl; now rewrite app_nil_r.
Qed.

Lemma reported_plot_drift path s : reported (fst (plot_drift path s)) = [].
Proof.
  unfold plot_drift, bind, lift.
  destruct (first_timestamp (timestamps s)); [reflexivity|].
  destruct (min_key_abs (dxdt_values s)); [reflexivity|].
  destruct (max_key_abs (dxdt_values s)); [reflexivity|].
  destruct (min_key_abs (dydt_values s)); [reflexivity|].
  destruct (max_key_abs (dydt_values s)); reflexivity.
Qed.

Lemma reported_after_scan path s c0 c1 sz :
  drift_data_found s = true ->
  wafer_centre s = [c0; c1] -> size_xy s = Some sz ->
  reported (fst (after_scan path s))
  = map (fun b : block => (snd (fst b), snd b))
        (sorted (map (translate c0 c1) (sorted (drift_pos_data s)))).
Proof.
  intros Hf Hw Hs.
  pose proof (reported_plot_positions s c0 c1 sz Hw Hs) as Hp.
  pose proof (reported_plot_drift path s) as Hd.
  unfold after_scan. rewrite Hf.
  destruct (plot_positions s) as [o1 [e|u]]; [exact Hp|].
  destruct (plot_drift path s) as [o2 r2]. simpl in *.
  now rewrite reported_app, Hp, Hd, app_nil_r.
Qed.

Lemma bind_fst {A B} (m : M A) (k : A -> M B) a o :
  m = (o, inr a) -> fst (bind m k) = o ++ fst (k a).
Proof. intros ->. unfold bind. now destruct (k a). Qed.

(** C3. In a run that gets past the scan and the drift check, the relative
    positions printed are, block for block, [(X - Cx/1000, Y - Cy/1000)],
    where [(Cx, Cy)] are the micrometre values of the log's wafer-centre
    line (the last one, should several lines match) and [(X, Y)] the
    millimetre coordinates of the block. *)
Theorem relative_positions (f : logfile) (out : list event) (s : state)
        (Cx Cy Sx Sy : float) :
  header_ok f = true ->
  scan initial (lines f) = (out, inr s) ->
  existsb matches_drift (lines f) = true ->
  last_centre (lines f)
  = Some {| centre_x_um := Some Cx; centre_y_um := Some Cy;
            size_x_um := Some Sx; size_y_um := Some Sy |} ->
  Permutation (reported (fst (main f)))
              (map (relative_to Cx Cy) (blocks_of (lines f)))
  /\ wafer_centre s = [Cx / 1000; Cy / 1000]%float.
Proof.
  intros Hh E Hd Hl.
  destruct (scan_fields _ _ _ _ E) as (F1 & F2 & _ & F4).
  rewrite Hl in F4. destruct F4 as (c & sz & Hg & Hw & Hs).
  injection Hg as <- <-. simpl in F1, F2. split; [|exact Hw].
  unfold main. rewrite Hh, process_eq, (bind_fst _ _ _ _ E), reported_app.
  pose proof (scan_prints (lines f) initial) as Hg. rewrite E in Hg. simpl in Hg.
  apply geometry_no_plot in Hg. destruct Hg as (_ & -> & _). simpl app.
  rewrite Hd in F1.
  rewrite (reported_after_scan _ s _ _ _ F1 Hw Hs), F2.
  rewrite (Permutation_map _ (sorted_perm _)), map_map.
  rewrite (Permutation_map _ (sorted_perm _)).
  apply Permutation_refl'. apply map_ext. now intros [[n x] y].
Qed.

Lemma relative_positions_witness :
  Permutation (reported (fst (main midnight_file)))
              (map (relative_to 75000 75000) (blocks_of (lines midnight_file)))
  /\ wafer_centre midnight_state = [75000 / 1000; 75000 / 1000]%float.
Proof.
  apply (relative_positions midnight_file
           [Print (Centre 75 75); Print (Size 150 150)] midnight_state
           75000 75000 150000 150000); vm_compute; reflexivity.
Defined.

(** C3 as the specification words it fails on [two_centres_file]: the
    file holds a wafer-centre line giving (1000, 2000) um and
    a block at (10, 10) mm, but the position printed for the block is
    (5, 4), relative to the later centre (5000, 6000) um, not (9, 8). *)
Lemma relative_positions_counterexample :
  exists g,
    first_centre (lines two_centres_file) = Some g
    /\ centre_x_um g = Some 1000%float /\ centre_y_um g = Some 2000%float
    /\ blocks_of (lines two_centres_file) = [(1, 10%float, 10%float)]
    /\ relative_to 1000 2000 (1, 10%float, 10%float) = (9%float, 8%float)
    /\ reported (fst (main two_centres_file)) = [(5%float, 4%float)]
    /\ reported (fst (main two_centres_file))
       <> map (relative_to 1000 2000) (blocks_of (lines two_centres_file)).
Proof.
  eexists. repeat split; try (vm_compute; reflexivity).
  intros H.
  apply (f_equal (fun l : list (float * float) =>
                    match l with
                    | (x, _) :: _ => PrimFloat.eqb x 5
                    | [] => false
                    end)) in H.
  vm_compute in H. discriminate.
Qed.

(** ** The second sort *)

(** A float that takes part in an equality is not NaN, and two such
    floats are comparable. *)
Lemma sub_eqb_comparable a b c :
  PrimFloat.eqb (a - c) (b - c) = true ->
  PrimFloat.ltb b a = false -> PrimFloat.eqb b a = false ->
  PrimFloat.ltb a b = true.
Proof.
  rewrite !eqb_spec, !ltb_spec, !sub_spec. unfold SF64sub.
  generalize (Prim2SF a) (Prim2SF b) (Prim2SF c). clear.
  intros x y z H.
  assert (Nx : x <> S754_nan) by (intros ->; discriminate).
  assert (Ny : y <> S754_nan).
  { intros ->. unfold SFeqb, SFcompare in H. simpl SFsub in H.
    destruct (SFsub prec emax x z); discriminate. }
  clear H. revert Nx Ny. FloatOrder.sf_cases.
Qed.

(** The key order of two translated blocks is the key order of the blocks,
    unless the translation swaps them. *)
Lemma key_lt_translate c0 c1 a b :
  key_lt b a = false -> swapped c0 c1 a b = false ->
  key_lt (translate c0 c1 b) (translate c0 c1 a) = false.
Proof.
  destruct a as [[n1 x1] y1], b as [[n2 x2] y2]. unfold swapped, translate, key_lt.
  rewrite (Z.eqb_sym n1 n2).
  destruct (n2 =? n1); simpl; [|trivial].
  intros Hk Hs.
  destruct (PrimFloat.eqb (x2 - c0) (x1 - c0)) eqn:Ex'; simpl.
  - destruct (PrimFloat.eqb (y2 - c1) (y1 - c1)) eqn:Ey'; simpl; [reflexivity|].
    destruct (PrimFloat.ltb (y2 - c1) (y1 - c1)) eqn:Ly'; [|reflexivity].
    exfalso.
    pose proof (FloatSub.sub_ltb _ _ _ Ly') as Ly.
    pose proof (FloatOrder.ltb_not_eqb _ _ Ly) as Ey.
    rewrite FloatOrder.eqb_sym in Ey. rewrite Ey, Ly in Hk.
    destruct (PrimFloat.eqb x2 x1) eqn:Ex; simpl in Hk; [discriminate|].
    rewrite FloatOrder.eqb_sym in Ex'.
    rewrite (sub_eqb_comparable _ _ _ Ex' Hk Ex), Ex' in Hs. discriminate.
  - destruct (PrimFloat.ltb (x2 - c0) (x1 - c0)) eqn:Lx'; [|reflexivity].
    exfalso.
    pose proof (FloatSub.sub_ltb _ _ _ Lx') as Lx.
    pose proof (FloatOrder.ltb_not_eqb _ _ Lx) as Ex.
    rewrite FloatOrder.eqb_sym in Ex. rewrite Ex, Lx in Hk. discriminate.
Qed.

Lemma swap_free_in c0 c1 l a b :
  swap_free c0 c1 l = true -> In a l -> In b l -> swapped c0 c1 a b = false.
Proof.
  unfold swap_free. rewrite forallb_forall. intros H Ha Hb.
  specialize (H a Ha). rewrite forallb_forall in H.
  now apply negb_true_iff, H.
Qed.

(** A translation that swaps no two blocks keeps a list ascending. *)
Lemma translate_ascending c0 c1 l :
  (forall a b, In a l -> In b l -> swapped c0 c1 a b = false) ->
  ascending l -> ascending (map (translate c0 c1) l).
Proof.
  unfold ascending. induction l as [|x rest IH]; intros Hk H; simpl; [constructor|].
  inversion H as [|? ? Hs Hh]; subst. constructor.
  - apply IH; [|exact Hs]. intros a b Ha Hb. apply Hk; now right.
  - destruct rest as [|y rest']; simpl; constructor.
    inversion Hh as [|? ? Hyx]; subst.
    apply key_lt_translate; [exact Hyx|].
    apply Hk; [now left | right; now left].
Qed.

(** C5, as binary64 arithmetic has it.  Subtracting the wafer centre
    rounds, so it can make two different coordinates equal, but it never
    reverses their order.  The second sort therefore returns the relative
    list unchanged, in the order of the first sort, unless the list holds
    two blocks of the same number whose different x coordinates become
    equal while their relative y coordinates stand in the opposite
    order. *)
Theorem second_sort_is_identity (c0 c1 : float) (bs : list block) :
  swap_free c0 c1 bs = true ->
  relative_drift_pos_data [c0; c1] (sorted bs)
  = inr (map (translate c0 c1) (sorted bs))
  /\ sorted (map (translate c0 c1) (sorted bs)) = map (translate c0 c1) (sorted bs).
Proof.
  intros H. split; [apply relative_eq|].
  apply ascending_sorted, translate_ascending; [|apply sorted_ascending].
  intros a b Ha Hb.
  apply (swap_free_in c0 c1 bs); [exact H| |].
  - now apply (Permutation_in _ (sorted_perm bs)).
  - now apply (Permutation_in _ (sorted_perm bs)).
Qed.

(** On [merging_blocks] with the centre at (75, 75) mm coordinates merge,
    within a block number and across block numbers, yet no two blocks are
    swapped. *)
Lemma second_sort_is_identity_witness :
  relative_drift_pos_data [75; 75]%float (sorted merging_blocks)
  = inr (map (translate 75 75) (sorted merging_blocks))
  /\ sorted (map (translate 75 75) (sorted merging_blocks))
     = map (translate 75 75) (sorted merging_blocks).
Proof.
  apply (second_sort_is_identity 75 75 merging_blocks).
  vm_compute. reflexivity.
Defined.

(** C5 as the specification words it fails on [tiny_blocks] with the
    centre at (75, 75) mm: the blocks are in key order, x = 1e-17 before
    x = 2e-17; both x coordinates become -75 when the centre is
    subtracted, so the second sort orders the two by y and swaps them,
    and the run prints them in the swapped order. *)
Lemma second_sort_counterexample :
  swap_free 75 75 tiny_blocks = false
  /\ sorted tiny_blocks = tiny_blocks
  /\ relative_drift_pos_data [75; 75]%float (sorted tiny_blocks)
     = inr [(1, (-75)%float, (-70)%float); (1, (-75)%float, (-72)%float)]
  /\ sorted [(1, (-75)%float, (-70)%float); (1, (-75)%float, (-72)%float)]
     = [(1, (-75)%float, (-72)%float); (1, (-75)%float, (-70)%float)]
  /\ sorted [(1, (-75)%float, (-70)%float); (1, (-75)%float, (-72)%float)]
     <> [(1, (-75)%float, (-70)%float); (1, (-75)%float, (-72)%float)]
  /\ reported (fst (main tiny_file)) = [(-75, -72)%float; (-75, -70)%float].
Proof.
  repeat split; try (vm_compute; reflexivity).
  intros H.
  apply (f_equal (fun l : list block =>
                    match l with
                    | (_, _, y) :: _ => PrimFloat.eqb y (-70)
                    | [] => false
                    end)) in H.
  vm_compute in H. discriminate.
Qed.

(** ** Timestamp reconstruction *)



Lemma day_transition_inr previous c t :
  day_transition previous c = inr t ->
  t = match previous with
      | Some p => if Datetime.lt c p then next_day c else c
      | None => c
      end.
Proof.
  unfold day_transition, add_days, next_day. destruct previous as [p|].
  - destruct (Datetime.lt c p).
    + destruct ((1 <=? ordinal c + 1) && (ordinal c + 1 <=? MAXORDINAL)); [|discriminate].
      now intros H; injection H as <-.
    + now intros H; injection H as <-.
  - now intros H; injection H as <-.
Qed.

Lemma scan_centre_time s l out s1 :
  scan_centre s l = (out, inr s1) ->
  timestamps s1 = timestamps s /\ previous_timestamp s1 = previous_timestamp s
  /\ date_vars s1 = date_vars s.
Proof.
  rewrite scan_centre_eq. destruct (centrematch l) as [g|].
  - destruct (geometry_mm g) as [[c sz]|]; [|discriminate].
    intros H. injection H as _ <-. auto.
  - intros H. injection H as _ <-. auto.
Qed.

(** What a completed iteration does to the timestamps. *)
Lemma scan_line_time s l out s' :
  scan_line s l = (out, inr s') ->
  date_vars s' = date_at (date_vars s) l
  /\ match drift_match l with
     | None => timestamps s' = timestamps s
               /\ previous_timestamp s' = previous_timestamp s
     | Some g =>
         exists c t,
           candidate (date_at (date_vars s) l) g = inr c
           /\ day_transition (previous_timestamp s) c = inr t
           /\ timestamps s' = timestamps s ++ [t]
           /\ previous_timestamp s' = Some t
     end.
Proof.
  intros H. pose proof (scan_line_fields _ _ _ _ H) as (_ & _ & Fd & _).
  split; [exact Fd|].
  apply scan_line_inr in H. destruct H as (s1 & s2 & H1 & H2 & ->).
  apply scan_centre_time in H1. destruct H1 as (T1 & T2 & T3).
  rewrite scan_drift_eq in H2.
  assert (Hv : date_vars (scan_date s1 l) = date_at (date_vars s) l).
  { unfold scan_date, date_at. rewrite <- T3. now destruct (datematch l). }
  assert (Hp : previous_timestamp (scan_date s1 l) = previous_timestamp s).
  { unfold scan_date. rewrite <- T2. now destruct (datematch l). }
  assert (Ht : timestamps (scan_date s1 l) = timestamps s).
  { unfold scan_date. rewrite <- T1. now destruct (datematch l). }
  assert (Hb : forall s0, timestamps (with_block s0 l) = timestamps s0
                          /\ previous_timestamp (with_block s0 l) = previous_timestamp s0).
  { intros s0. unfold with_block, block_of.
    now destruct (driftpos_match l) as [[[n|] x y]|]. }
  destruct (Hb s2) as [-> ->].
  destruct (drift_match l) as [g|].
  - rewrite Hv, Hp in H2.
    destruct (candidate _ g) as [|c] eqn:Ec; [discriminate|].
    destruct (day_transition _ c) as [|t] eqn:Ed; [discriminate|].
    injection H2 as <-. exists c, t. simpl. rewrite Ht. auto.
  - injection H2 as <-. rewrite Ht, Hp. auto.
Qed.




Lemma most_recent_date_app pre l :
  most_recent_date (pre ++ [l]) = date_at (most_recent_date pre) l.
Proof. unfold most_recent_date. now rewrite fold_left_app. Qed.





(** The same 4 minutes when the log shows the following date between the
    two samples: no day is added, the date line has moved the candidate. *)
Example dated_midnight_run :
  exists out s t1 t2,
    scan initial dated_midnight_log = (out, inr s)
    /\ timestamps s = [t1; t2]
    /\ t1 = Datetime.mk (ymd2ord 2024 11 30) (23 * 3600 + 58 * 60)
    /\ t2 = Datetime.mk (ymd2ord 2024 12 1) (0 * 3600 + 2 * 60)
    /\ total_seconds t2 t1 = 4 * 60.
Proof.
  eexists _, _, _, _. repeat split; vm_compute; reflexivity.
Qed.


(** ** Monotonicity of the corrected timestamps *)

Lemma lt_same_day D a b : Datetime.lt (Datetime.mk D a) (Datetime.mk D b) = (a <? b).
Proof. unfold Datetime.lt. simpl. now rewrite Z.ltb_irrefl, Z.eqb_refl. Qed.

Lemma lt_next_day D a b : Datetime.lt (Datetime.mk D a) (Datetime.mk (D + 1) b) = true.
Proof.
  unfold Datetime.lt. simpl.
  replace (D <? D + 1) with true by (symmetry; apply Z.ltb_lt; lia). reflexivity.
Qed.

Lemma lt_prev_day D a b : Datetime.lt (Datetime.mk (D + 1) a) (Datetime.mk D b) = false.
Proof.
  unfold Datetime.lt. simpl.
  replace (D + 1 <? D) with false by (symmetry; apply Z.ltb_ge; lia).
  replace (D + 1 =? D) with false by (symmetry; apply Z.eqb_neq; lia). reflexivity.
Qed.

(** The timestamps a completed scan appends are the day-transition rule
    run over the candidates of its drift lines. *)
Lemma scan_timestamps ls : forall s out s',
    scan s ls = (out, inr s') ->
    exists ts,
      day_transitions (previous_timestamp s) (candidates (date_vars s) ls) = inr ts
      /\ timestamps s' = timestamps s ++ ts.
Proof.
  induction ls as [|l rest IH]; intros s out s' H.
  - injection H as _ <-. exists []. now rewrite app_nil_r.
  - rewrite scan_cons in H. apply bind_inr in H.
    destruct H as (o1 & s1 & o2 & H1 & H2 & _).
    apply scan_line_time in H1. destruct H1 as [Hv H1].
    destruct (IH _ _ _ H2) as (ts & Ht & Hs). rewrite Hv in Ht.
    simpl candidates. fold (date_at (date_vars s) l).
    destruct (drift_match l) as [g|].
    + destruct H1 as (c & t & Ec & Et & Hts & Hp).
      rewrite Hp in Ht. exists (t :: ts). simpl. rewrite Ec, Et, Ht.
      split; [reflexivity|]. rewrite Hs, Hts, <- app_assoc. reflexivity.
    + destruct H1 as [Hts Hp]. rewrite Hp in Ht. exists ts.
      split; [exact Ht|]. now rewrite Hs, Hts.
Qed.

Lemma descents_cons a b rest :
  descents (a :: b :: rest)
  = Nat.add (if b <? a then 1%nat else 0%nat) (descents (b :: rest)).
Proof. reflexivity. Qed.

(** After the rollover every candidate of day [D] is moved to day [D + 1]. *)
Lemma transitions_rolled D tods : forall p ts,
    descents (p :: tods) = 0%nat ->
    day_transitions (Some (Datetime.mk (D + 1) p))
                    (map (fun tod => inr (Datetime.mk D tod)) tods) = inr ts ->
    non_decreasing (Datetime.mk (D + 1) p :: ts).
Proof.
  unfold non_decreasing.
  induction tods as [|tod rest IH]; intros p ts Hd H.
  - injection H as <-. repeat constructor.
  - rewrite descents_cons in Hd.
    destruct (tod <? p) eqn:E; [discriminate|]. simpl in Hd.
    simpl in H. unfold day_transition in H. rewrite lt_next_day in H.
    unfold add_days in H. simpl in H.
    destruct ((1 <=? D + 1) && (D + 1 <=? MAXORDINAL)); [|discriminate].
    destruct (day_transitions _ _) as [|ts'] eqn:Et; [discriminate|].
    injection H as <-. constructor; [now apply IH|].
    constructor. now rewrite lt_same_day.
Qed.

(** Up to the rollover the candidates of day [D] stay as they are. *)
Lemma transitions_same_day D tods : forall p ts,
    (descents (p :: tods) <= 1)%nat ->
    day_transitions (Some (Datetime.mk D p))
                    (map (fun tod => inr (Datetime.mk D tod)) tods) = inr ts ->
    non_decreasing (Datetime.mk D p :: ts).
Proof.
  unfold non_decreasing.
  induction tods as [|tod rest IH]; intros p ts Hd H.
  - injection H as <-. repeat constructor.
  - rewrite descents_cons in Hd.
    simpl in H. unfold day_transition in H. rewrite lt_same_day in H.
    destruct (tod <? p) eqn:E.
    + unfold add_days in H. simpl in H.
      destruct ((1 <=? D + 1) && (D + 1 <=? MAXORDINAL)); [|discriminate].
      destruct (day_transitions _ _) as [|ts'] eqn:Et; [discriminate|].
      injection H as <-. constructor.
      * apply (transitions_rolled D rest tod ts'); [lia | exact Et].
      * constructor. apply lt_prev_day.
    + destruct (day_transitions _ _) as [|ts'] eqn:Et; [discriminate|].
      injection H as <-. constructor.
      * apply IH; [exact Hd | exact Et].
      * constructor. now rewrite lt_same_day.
Qed.

Lemma candidates_app pre : forall vars post,
    candidates vars (pre ++ post)
    = candidates vars pre ++ candidates (fold_left date_at pre vars) post.
Proof.
  induction pre as [|l rest IH]; intros vars post; [reflexivity|].
  simpl. fold (date_at vars l). rewrite IH.
  now destruct (drift_match l).
Qed.

Lemma descents_app_le t1 t2 : (descents t1 <= descents (t1 ++ t2))%nat.
Proof.
  induction t1 as [|a r IH]; [apply Nat.le_0_l|].
  destruct r as [|b r']; [apply Nat.le_0_l|].
  change ((a :: b :: r') ++ t2) with (a :: b :: (r' ++ t2)).
  rewrite !descents_cons. change (b :: (r' ++ t2)) with ((b :: r') ++ t2). lia.
Qed.

(** C2. When every drift sample of the log is dated on the same day and
    the time of day decreases from one sample to the next at most once,
    the timestamps stored after any number of lines [pre] of the log
    [pre ++ post] have been scanned (all of them, when [post] is empty)
    are, in file order, non-decreasing. *)
Theorem corrected_timestamps_non_decreasing
        (pre post : list line) (out : list event) (s : state) (D : Z) (tods : list Z) :
  scan initial pre = (out, inr s) ->
  single_date_context D tods (candidates None (pre ++ post)) ->
  (descents tods <= 1)%nat ->
  non_decreasing (timestamps s).
Proof.
  intros H Hc Hd. apply scan_timestamps in H. destruct H as (ts & Ht & Hs).
  simpl in Ht, Hs. rewrite Hs. unfold single_date_context in Hc.
  rewrite candidates_app in Hc. symmetry in Hc. apply map_eq_app in Hc.
  destruct Hc as (t1 & t2 & -> & H1 & _). rewrite <- H1 in Ht.
  pose proof (descents_app_le t1 t2) as Hle.
  destruct t1 as [|tod rest].
  - injection Ht as <-. constructor.
  - simpl in Ht. unfold day_transition in Ht.
    destruct (day_transitions _ _) as [|ts'] eqn:Et; [discriminate|].
    injection Ht as <-.
    apply (transitions_same_day D rest tod ts'); [lia | exact Et].
Qed.

Lemma corrected_timestamps_non_decreasing_witness :
  non_decreasing (timestamps midnight_state).
Proof.
  apply (corrected_timestamps_non_decreasing midnight_log []
           [Print (Centre 75 75); Print (Size 150 150)] midnight_state
           739204 [86280; 120; 600]).
  - vm_compute. reflexivity.
  - vm_compute. reflexivity.
  - simpl. lia.
Defined.

(** * Further properties of the script *)

(** ** What an iteration leaves in the remaining variables *)

Lemma scan_line_record s l out s' :
  scan_line s l = (out, inr s') ->
  out = geometry_prints l
  /\ dxdt_values s' = dxdt_values s ++ map dxdt (drift_groups_of [l])
  /\ dydt_values s' = dydt_values s ++ map dydt (drift_groups_of [l])
  /\ List.length (timestamps s') = (List.length (timestamps s) + List.length (drift_groups_of [l]))%nat
  /\ run_date s' = match run_date s with
                   | Some d => Some d
                   | None => option_map date_label (datematch l)
                   end
  /\ run_start_time s' = match run_date s, datematch l with
                         | None, Some g => Some (dtime g)
                         | _, _ => run_start_time s
                         end.
Proof.
  intros H. apply scan_line_inr in H. destruct H as (s1 & s2 & H1 & H2 & ->).
  rewrite scan_drift_eq in H2.
  unfold geometry_prints, drift_groups_of. cbn [flat_map]. unfold scan_centre in H1.
  assert (Hs1 : out = match centrematch l with
                      | Some {| centre_x_um := Some cx; centre_y_um := Some cy;
                                size_x_um := Some sx; size_y_um := Some sy |} =>
                          [Print (Centre (cx / 1000) (cy / 1000));
                           Print (Size (sx / 1000) (sy / 1000))]
                      | _ => []
                      end
                /\ dxdt_values s1 = dxdt_values s /\ dydt_values s1 = dydt_values s
                /\ timestamps s1 = timestamps s
                /\ run_date s1 = run_date s /\ run_start_time s1 = run_start_time s).
  { destruct (centrematch l) as [[[?|] [?|] [?|] [?|]]|]; simpl in H1;
      try discriminate; injection H1 as <- <-; simpl; auto 10. }
  destruct Hs1 as (Ho & Dx & Dy & Ts & Rd & Rt). split; [exact Ho|]. clear H1 Ho.
  assert (Hd : dxdt_values (scan_date s1 l) = dxdt_values s
               /\ dydt_values (scan_date s1 l) = dydt_values s
               /\ timestamps (scan_date s1 l) = timestamps s
               /\ run_date (scan_date s1 l)
                  = match run_date s with
                    | Some d => Some d
                    | None => option_map date_label (datematch l)
                    end
               /\ run_start_time (scan_date s1 l)
                  = match run_date s, datematch l with
                    | None, Some g => Some (dtime g)
                    | _, _ => run_start_time s
                    end).
  { unfold scan_date. rewrite <- Dx, <- Dy, <- Ts, <- Rd, <- Rt.
    destruct (datematch l); simpl; [|destruct (run_date s1); auto].
    destruct (run_date s1); auto. }
  destruct Hd as (Dx' & Dy' & Ts' & Rd' & Rt').
  assert (Hb : forall s0, dxdt_values (with_block s0 l) = dxdt_values s0
                          /\ dydt_values (with_block s0 l) = dydt_values s0
                          /\ timestamps (with_block s0 l) = timestamps s0
                          /\ run_date (with_block s0 l) = run_date s0
                          /\ run_start_time (with_block s0 l) = run_start_time s0).
  { intros s0. unfold with_block, block_of.
    destruct (driftpos_match l) as [[[n|] x y]|]; simpl; auto. }
  destruct (Hb s2) as (-> & -> & -> & -> & ->).
  destruct (drift_match l) as [g|].
  - destruct (candidate _ g) as [|c]; [discriminate|].
    destruct (day_transition _ c) as [|t]; [discriminate|].
    injection H2 as <-. simpl. rewrite Dx', Dy', Ts', Rd', Rt', length_app. simpl. auto.
  - injection H2 as <-. simpl. rewrite Dx', Dy', Ts', Rd', Rt', !app_nil_r, Nat.add_0_r. auto.
Qed.

Lemma drift_groups_of_cons l rest :
  drift_groups_of (l :: rest) = drift_groups_of [l] ++ drift_groups_of rest.
Proof. unfold drift_groups_of. simpl. now rewrite app_nil_r. Qed.

(** ** Run label, rate series and console output of the loop *)

(** X1. The label of the drift plot is taken from the first line that
    matches the date pattern and no later date line changes it, while
    [dyear], [dmonth], [dday] follow the last date line; without a date
    line both label parts stay [None]. *)
Theorem first_date_wins (ls : list line) (out : list event) (s : state) :
  scan initial ls = (out, inr s) ->
  run_date s = option_map date_label (first_date ls)
  /\ run_start_time s = option_map dtime (first_date ls)
  /\ date_vars s = most_recent_date ls.
Proof.
  intros H.
  assert (G : forall ls s0 out s',
             scan s0 ls = (out, inr s') ->
             run_date s' = match run_date s0 with
                           | Some d => Some d
                           | None => option_map date_label (first_date ls)
                           end
             /\ run_start_time s' = match run_date s0, first_date ls with
                                    | None, Some g => Some (dtime g)
                                    | _, _ => run_start_time s0
                                    end).
  { clear. induction ls as [|l rest IH]; intros s0 out s' H.
    - injection H as _ <-. simpl. now destruct (run_date s0).
    - rewrite scan_cons in H. apply bind_inr in H.
      destruct H as (o1 & s1 & o2 & H1 & H2 & _).
      apply scan_line_record in H1. destruct H1 as (_ & _ & _ & _ & Rd & Rt).
      apply IH in H2. destruct H2 as [Rd' Rt']. rewrite Rd', Rt', Rd, Rt. simpl.
      destruct (run_date s0); [auto|].
      destruct (datematch l); simpl; auto. }
  destruct (G _ _ _ _ H) as [Rd Rt]. simpl in Rd, Rt.
  destruct (scan_fields _ _ _ _ H) as (_ & _ & Fd & _). simpl in Fd.
  split; [exact Rd|]. split.
  - rewrite Rt. now destruct (first_date ls).
  - rewrite Fd. now destruct (most_recent_date ls).
Qed.

Lemma first_date_wins_witness :
  run_date dated_midnight_state = option_map date_label (first_date dated_midnight_log)
  /\ run_start_time dated_midnight_state = option_map dtime (first_date dated_midnight_log)
  /\ date_vars dated_midnight_state = most_recent_date dated_midnight_log.
Proof.
  apply (first_date_wins dated_midnight_log [] dated_midnight_state).
  vm_compute. reflexivity.
Defined.

Lemma scan_series ls : forall s0 out s',
    scan s0 ls = (out, inr s') ->
    dxdt_values s' = dxdt_values s0 ++ map dxdt (drift_groups_of ls)
    /\ dydt_values s' = dydt_values s0 ++ map dydt (drift_groups_of ls)
    /\ List.length (timestamps s')
       = (List.length (timestamps s0) + List.length (drift_groups_of ls))%nat.
Proof.
  induction ls as [|l rest IH]; intros s0 out s' H.
  - injection H as _ <-. simpl. now rewrite !app_nil_r, Nat.add_0_r.
  - rewrite scan_cons in H. apply bind_inr in H.
    destruct H as (o1 & s1 & o2 & H1 & H2 & _).
    apply scan_line_record in H1. destruct H1 as (_ & Dx & Dy & Ts & _).
    apply IH in H2. destruct H2 as (Dx' & Dy' & Ts').
    rewrite drift_groups_of_cons, map_app, map_app, length_app.
    rewrite Dx', Dy', Ts', Dx, Dy, Ts, <- !app_assoc. repeat split. lia.
Qed.

(** X2. After a completed scan the two rate lists hold the rates of the
    lines that match the drift pattern, in file order, and there is one
    timestamp per such line: the three series handed to [plt.plot] have
    the same length. *)
Theorem parallel_series (ls : list line) (out : list event) (s : state) :
  scan initial ls = (out, inr s) ->
  dxdt_values s = map dxdt (drift_groups_of ls)
  /\ dydt_values s = map dydt (drift_groups_of ls)
  /\ List.length (timestamps s) = List.length (drift_groups_of ls)
  /\ List.length (timestamps s) = List.length (dxdt_values s)
  /\ List.length (timestamps s) = List.length (dydt_values s).
Proof.
  intros H. destruct (scan_series _ _ _ _ H) as (Dx & Dy & Ts).
  simpl in Dx, Dy, Ts. rewrite Dx, Dy, Ts, !length_map. auto.
Qed.

Lemma parallel_series_witness :
  dxdt_values midnight_state = map dxdt (drift_groups_of midnight_log)
  /\ dydt_values midnight_state = map dydt (drift_groups_of midnight_log)
  /\ List.length (timestamps midnight_state) = List.length (drift_groups_of midnight_log)
  /\ List.length (timestamps midnight_state) = List.length (dxdt_values midnight_state)
  /\ List.length (timestamps midnight_state) = List.length (dydt_values midnight_state).
Proof.
  apply (parallel_series midnight_log
           [Print (Centre 75 75); Print (Size 150 150)] midnight_state).
  vm_compute. reflexivity.
Defined.

(** X3. What a completed scan has printed is, line by line in file order,
    the centre and the size of every line that matches the wafer-centre
    pattern, each divided by 1000, and nothing else. *)
Theorem scan_prints_geometry (ls : list line) :
  forall (s : state) (out : list event) (s' : state),
    scan s ls = (out, inr s') -> out = flat_map geometry_prints ls.
Proof.
  induction ls as [|l rest IH]; intros s out s' H.
  - now injection H as <- _.
  - rewrite scan_cons in H. apply bind_inr in H.
    destruct H as (o1 & s1 & o2 & H1 & H2 & ->).
    apply scan_line_record in H1. destruct H1 as (-> & _).
    apply IH in H2. subst o2. reflexivity.
Qed.

Lemma scan_prints_geometry_witness :
  [Print (Centre 1 2); Print (Size 150 150); Print (Centre 5 6); Print (Size 100 100)]
  = flat_map geometry_prints two_centres_log.
Proof.
  apply (scan_prints_geometry two_centres_log initial _ two_centres_state).
  vm_compute. reflexivity.
Defined.

(** ** Runs that complete, and runs that stop after the scan *)

Lemma some_centre_last ls :
  existsb matches_centre ls = true -> exists g, last_centre ls = Some g.
Proof.
  induction ls as [|l rest IH]; [discriminate|].
  simpl. rewrite last_centre_cons. unfold matches_centre at 1.
  destruct (last_centre rest) as [g|]; [now exists g|].
  destruct (centrematch l) as [g|]; [now exists g|]. simpl. exact IH.
Qed.

Lemma some_drift_groups ls :
  existsb matches_drift ls = true -> drift_groups_of ls <> [].
Proof.
  induction ls as [|l rest IH]; [discriminate|].
  rewrite drift_groups_of_cons. simpl. unfold matches_drift at 1.
  destruct (drift_match l); simpl; [discriminate|exact IH].
Qed.

Lemma no_blocks ls : existsb matches_block ls = false -> blocks_of ls = [].
Proof.
  induction ls as [|l rest IH]; [reflexivity|].
  simpl. unfold matches_block at 1, blocks_of, block_of at 1.
  destruct (driftpos_match l); simpl; [discriminate|exact IH].
Qed.

Lemma plot_drift_completes path s :
  timestamps s <> [] -> dxdt_values s <> [] -> dydt_values s <> [] ->
  exists out, plot_drift path s = (out, inr tt).
Proof.
  intros Ht Hx Hy. unfold plot_drift.
  destruct (timestamps s) as [|t ts]; [congruence|].
  destruct (dxdt_values s) as [|x xs]; [congruence|].
  destruct (dydt_values s) as [|y ys]; [congruence|].
  simpl. eexists. reflexivity.
Qed.

Lemma scan_found_series ls out s :
  scan initial ls = (out, inr s) -> existsb matches_drift ls = true ->
  timestamps s <> [] /\ dxdt_values s <> [] /\ dydt_values s <> [].
Proof.
  intros H Hd. destruct (scan_series _ _ _ _ H) as (Dx & Dy & Ts).
  simpl in Dx, Dy, Ts. apply some_drift_groups in Hd.
  destruct (drift_groups_of ls) as [|g gs]; [congruence|].
  rewrite Dx, Dy. simpl in Ts.
  repeat split; try discriminate.
  destruct (timestamps s); [discriminate Ts|discriminate].
Qed.

(** X4. A file that is read and decoded, with a valid header, whose scan
    completes, that holds at least one drift line, and whose last
    wafer-centre line gives a size with finite plot limits, runs to the
    end: both plots are produced and no exception is raised. *)
Theorem complete_run (f : logfile) (out : list event) (s : state) (g : centre_groups) :
  header_ok f = true ->
  scan initial (lines f) = (out, inr s) ->
  existsb matches_drift (lines f) = true ->
  last_centre (lines f) = Some g ->
  finite_size g = true ->
  exists positions drift,
    plot_positions s = (positions, inr tt)
    /\ plot_drift (file_path f) s = (drift, inr tt)
    /\ script (Readable f) = (out ++ positions ++ drift, inr tt).
Proof.
  intros Hh E Hd Hg Hfin.
  destruct (scan_fields _ _ _ _ E) as (F1 & _ & _ & F4). simpl in F1.
  rewrite Hg in F4.
  destruct F4 as (c & sz & Hgm & Hw & Hs).
  unfold finite_size in Hfin. rewrite Hgm in Hfin. unfold finite_limits in Hfin.
  apply andb_prop in Hfin. destruct Hfin as [Hx Hy].
  destruct g as [[cx|] [cy|] [sx|] [sy|]]; try discriminate.
  injection Hgm as <- <-.
  destruct (scan_found_series _ _ _ E Hd) as (Nt & Nx & Ny).
  destruct (plot_drift_completes (file_path f) s Nt Nx Ny) as (drift & Ed).
  pose proof (plot_positions_eq s _ _ _ Hw Hs) as Ep.
  rewrite Hx, Hy in Ep.
  eexists _, drift. split; [exact Ep|]. split; [exact Ed|].
  rewrite script_readable.
  unfold main. rewrite Hh, process_eq, E. unfold bind at 1. unfold after_scan.
  rewrite F1, Hd. unfold bind at 1. unfold ret.
  unfold bind. rewrite Ep, Ed. reflexivity.
Qed.

Lemma complete_run_witness :
  exists positions drift,
    plot_positions midnight_state = (positions, inr tt)
    /\ plot_drift (file_path midnight_file) midnight_state = (drift, inr tt)
    /\ script (Readable midnight_file)
       = ([Print (Centre 75 75); Print (Size 150 150)] ++ positions ++ drift, inr tt).
Proof.
  apply (complete_run midnight_file _ _
           {| centre_x_um := Some 75000%float; centre_y_um := Some 75000%float;
              size_x_um := Some 150000%float; size_y_um := Some 150000%float |});
    vm_compute; reflexivity.
Defined.

(** X5. With a valid header, a completed scan and a drift line, but neither
    a wafer-centre line nor a calibration block, the script prints the
    heading of the relative positions and opens the figure, then stops in
    [NameError]: [size_x] was never bound. *)
Theorem no_centre_no_block (f : logfile) (out : list event) (s : state) :
  header_ok f = true ->
  scan initial (lines f) = (out, inr s) ->
  existsb matches_drift (lines f) = true ->
  existsb matches_centre (lines f) = false ->
  existsb matches_block (lines f) = false ->
  main f = ([Print RelativeHeader; Plot Figure], inl NameError).
Proof.
  intros Hh E Hd Hc Hb.
  pose proof (no_centre_silent (lines f) initial Hc) as Ho. rewrite E in Ho. simpl in Ho.
  destruct (scan_fields _ _ _ _ E) as (F1 & F2 & _ & F4). simpl in F1, F2.
  rewrite (no_centre_last _ Hc) in F4. destruct F4 as [Fw Fs]. simpl in Fw, Fs.
  rewrite (no_blocks _ Hb) in F2. subst out.
  unfold main. rewrite Hh, process_eq, E. unfold bind at 1. unfold after_scan.
  rewrite F1, Hd. unfold plot_positions. rewrite F2, Fw, Fs. reflexivity.
Qed.

Lemma no_centre_no_block_witness :
  main drift_only_file = ([Print RelativeHeader; Plot Figure], inl NameError).
Proof.
  apply (no_centre_no_block drift_only_file [] (add_sample
           (set_date initial {| dweek := "Thu"; dmonth := "Nov"; dday := "14";
                                dtime := "17:30:26"; dtzone := "AEST"; dyear := "2024" |})
           (Datetime.mk 739204 63060) 1.5 (-0.5)));
    vm_compute; reflexivity.
Defined.

(** X6. A drift line that no date line precedes stops the scan in
    [NameError] ([dyear] is unbound); what the earlier lines and the
    wafer-centre part of this line printed stays on the console. *)
Theorem drift_before_date (pre post : list line) (l : line) (g : drift_groups)
        (out : list event) (s : state) :
  scan initial pre = (out, inr s) ->
  most_recent_date (pre ++ [l]) = None ->
  drift_match l = Some g ->
  parsable l = true ->
  scan initial (pre ++ l :: post) = (out ++ geometry_prints l, inl NameError).
Proof.
  intros E Hm Hg Hp.
  rewrite most_recent_date_app in Hm. unfold date_at in Hm.
  destruct (datematch l) as [d|] eqn:Ed; [discriminate|].
  destruct (scan_fields _ _ _ _ E) as (_ & _ & Fd & _). rewrite Hm in Fd. simpl in Fd.
  rewrite scan_app, E. unfold bind at 1. rewrite scan_cons.
  assert (Hl : scan_line s l = (geometry_prints l, inl NameError)).
  { unfold scan_line, scan_centre, geometry_prints, parsable in *.
    destruct (centrematch l) as [[[?|] [?|] [?|] [?|]]|]; try discriminate; simpl;
      rewrite scan_drift_eq, Hg; unfold scan_date; rewrite Ed; simpl;
      rewrite Fd; reflexivity. }
  rewrite Hl. reflexivity.
Qed.

Lemma drift_before_date_witness :
  scan initial ([block_line 1 75.5 74] ++ drift_line "17" "31" 1.5 (-0.5) :: [no_match])
  = ([] ++ geometry_prints (drift_line "17" "31" 1.5 (-0.5)), inl NameError).
Proof.
  apply (drift_before_date [block_line 1 75.5 74] [no_match]
           (drift_line "17" "31" 1.5 (-0.5))
           {| hour := "17"; minute := "31"; dxdt := 1.5; dydt := -0.5 |}
           [] (add_block initial (1, 75.5%float, 74%float)));
    vm_compute; reflexivity.
Defined.

(** ** Printed and plotted positions *)

Lemma scattered_app o1 o2 : scattered (o1 ++ o2) = scattered o1 ++ scattered o2.
Proof. unfold scattered. apply flat_map_app. Qed.

Lemma scattered_cons e o :
  scattered (e :: o)
  = match e with Plot (Scatter x y) => [(x, y)] | _ => [] end ++ scattered o.
Proof. reflexivity. Qed.

Lemma scattered_scatter l :
  scattered (map scatter_relative l) = map (fun b : block => (snd (fst b), snd b)) l.
Proof.
  induction l as [|[[n x] y] rest IH]; [reflexivity|].
  cbn [map]. rewrite scattered_cons, IH. reflexivity.
Qed.

Lemma scattered_print_relative l : scattered (map print_relative l) = [].
Proof.
  induction l as [|[[n x] y] rest IH]; [reflexivity|].
  cbn [map]. rewrite scattered_cons, IH. reflexivity.
Qed.

Lemma scattered_geometry out :
  forallb is_geometry_print out = true -> scattered out = [].
Proof.
  induction out as [|e out IH]; [reflexivity|].
  intros H. simpl in H. apply andb_prop in H. destruct H as [He Ho].
  rewrite scattered_cons, (IH Ho). now destruct e as [[]|[]].
Qed.

Lemma scattered_plot_drift path s : scattered (fst (plot_drift path s)) = [].
Proof.
  unfold plot_drift, bind, lift.
  destruct (first_timestamp (timestamps s)); [reflexivity|].
  destruct (min_key_abs (dxdt_values s)); [reflexivity|].
  destruct (max_key_abs (dxdt_values s)); [reflexivity|].
  destruct (min_key_abs (dydt_values s)); [reflexivity|].
  destruct (max_key_abs (dydt_values s)); reflexivity.
Qed.

(** A positions plot that completes has printed and drawn the same list. *)
Lemma plot_positions_inr s out u :
  plot_positions s = (out, inr u) ->
  exists rel, scattered out = map (fun b : block => (snd (fst b), snd b)) (sorted rel)
              /\ reported out = map (fun b : block => (snd (fst b), snd b)) (sorted rel).
Proof.
  unfold plot_positions.
  destruct (relative_drift_pos_data (wafer_centre s) (sorted (drift_pos_data s)))
    as [e|rel]; [discriminate|].
  destruct (size_xy s) as [sz|]; [|simpl; intros H; discriminate].
  unfold set_limits, lift, unbound, bind, ret, emit, emit_all.
  destruct (is_finite (- fst sz / 2) && is_finite (fst sz / 2));
    [|simpl; intros H; discriminate].
  destruct (is_finite (- snd sz / 2) && is_finite (snd sz / 2));
    [|simpl; intros H; discriminate].
  simpl. intros H. injection H as <- _. exists rel. split.
  - rewrite scattered_cons, scattered_app, scattered_print_relative. simpl.
    rewrite scattered_app, scattered_scatter. simpl. now rewrite app_nil_r.
  - rewrite reported_cons, reported_app, reported_print_relative. simpl.
    rewrite reported_app, reported_scatter. simpl. now rewrite app_nil_r.
Qed.

(** X7. In a run that completes, the points drawn on the positions plot are
    exactly the relative positions printed on the console, in the same
    order. *)
Theorem printed_positions_are_plotted (f : logfile) (out : list event) :
  main f = (out, inr tt) -> scattered out = reported out.
Proof.
  unfold main. destruct (header_ok f); [|intros H; discriminate].
  rewrite process_eq. intros H. apply bind_inr in H.
  destruct H as (o1 & s & o2 & E & Ha & ->).
  pose proof (scan_prints (lines f) initial) as Hg. rewrite E in Hg. simpl in Hg.
  rewrite scattered_app, reported_app, (scattered_geometry _ Hg).
  destruct (geometry_no_plot _ Hg) as (_ & -> & _). simpl.
  unfold after_scan in Ha. destruct (drift_data_found s); [|discriminate].
  apply bind_inr in Ha. destruct Ha as (o3 & [] & o4 & Hr & Hb & ->).
  injection Hr as <-. simpl.
  apply bind_inr in Hb. destruct Hb as (o5 & u & o6 & Hp & Hd & ->).
  apply plot_positions_inr in Hp. destruct Hp as (rel & Hs & Hr).
  pose proof (scattered_plot_drift (file_path f) s) as Sd.
  pose proof (reported_plot_drift (file_path f) s) as Rd.
  rewrite Hd in Sd, Rd. simpl in Sd, Rd.
  now rewrite scattered_app, reported_app, Hs, Hr, Sd, Rd.
Qed.

Lemma printed_positions_are_plotted_witness :
  scattered (fst (main midnight_file)) = reported (fst (main midnight_file)).
Proof.
  apply (printed_positions_are_plotted midnight_file).
  vm_compute. reflexivity.
Defined.

(** ** How far a timestamp can be from its candidate *)

Lemma day_transitions_steps cands : forall p ts,
    day_transitions p cands = inr ts ->
    exists cs, cands = map inr cs /\ Forall2 same_or_next_day cs ts.
Proof.
  induction cands as [|[e|c] rest IH]; intros p ts H.
  - injection H as <-. exists []. split; [reflexivity|constructor].
  - discriminate.
  - simpl in H. destruct (day_transition p c) as [|t] eqn:Et; [discriminate|].
    destruct (day_transitions (Some t) rest) as [|ts'] eqn:Er; [discriminate|].
    injection H as <-. destruct (IH _ _ Er) as (cs & -> & Hf).
    exists (c :: cs). split; [reflexivity|]. constructor; [|exact Hf].
    apply day_transition_inr in Et. unfold same_or_next_day. subst t.
    destruct p as [q|]; [destruct (Datetime.lt c q)|]; auto.
Qed.

(** X8. Every timestamp a completed scan has stored is the candidate of
    its drift line or that candidate plus exactly one day: the script
    never adds more than one day, however many times midnight passes. *)
Theorem one_day_at_most (ls : list line) (out : list event) (s : state) :
  scan initial ls = (out, inr s) ->
  exists cs,
    candidates None ls = map inr cs
    /\ Forall2 same_or_next_day cs (timestamps s).
Proof.
  intros H. apply scan_timestamps in H. destruct H as (ts & Ht & Hs).
  simpl in Ht, Hs. rewrite Hs.
  destruct (day_transitions_steps _ _ _ Ht) as (cs & Hc & Hf).
  exists cs. split; [exact Hc|exact Hf].
Qed.

Lemma one_day_at_most_witness :
  exists cs,
    candidates None two_crossings_log = map inr cs
    /\ Forall2 same_or_next_day cs
         [Datetime.mk 739204 82800; Datetime.mk 739205 3600;
          Datetime.mk 739205 86280; Datetime.mk 739205 120].
Proof.
  apply (one_day_at_most two_crossings_log []
           (add_sample (add_sample (add_sample (add_sample
              (set_date initial {| dweek := "Thu"; dmonth := "Nov"; dday := "14";
                                   dtime := "17:30:26"; dtzone := "AEST";
                                   dyear := "2024" |})
              (Datetime.mk 739204 82800) 1 1) (Datetime.mk 739205 3600) 1 1)
              (Datetime.mk 739205 86280) 1 1) (Datetime.mk 739205 120) 1 1)).
  vm_compute. reflexivity.
Defined.

(** ** Order of the block numbers *)

Lemma ascending_block_numbers l : ascending l -> Sorted Z.le (block_numbers l).
Proof.
  unfold ascending. induction 1 as [|a l Hs IH Hh]; simpl; constructor; [exact IH|].
  destruct Hh as [|b l' Hab]; simpl; constructor.
  destruct a as [[n1 x1] y1], b as [[n2 x2] y2]. simpl.
  unfold key_lt in Hab. destruct (n2 =? n1) eqn:E; simpl in Hab.
  - apply Z.eqb_eq in E. lia.
  - apply Z.ltb_ge in Hab. exact Hab.
Qed.

Lemma sorted_numbers_unique l1 : forall l2,
    StronglySorted Z.le l1 -> StronglySorted Z.le l2 -> Permutation l1 l2 -> l1 = l2.
Proof.
  induction l1 as [|a r1 IH]; intros l2 S1 S2 P.
  - apply Permutation_nil in P. now subst.
  - destruct l2 as [|b r2]; [apply Permutation_sym, Permutation_nil in P; discriminate|].
    inversion S1 as [|? ? S1' F1]; inversion S2 as [|? ? S2' F2]; subst.
    assert (a = b).
    { assert (Ia : In a (b :: r2)) by (apply (Permutation_in _ P); now left).
      assert (Ib : In b (a :: r1)) by (apply (Permutation_in _ (Permutation_sym P)); now left).
      rewrite Forall_forall in F1, F2.
      destruct Ia as [->|Ia]; [reflexivity|]. destruct Ib as [->|Ib]; [reflexivity|].
      specialize (F1 _ Ib). specialize (F2 _ Ia). lia. }
    subst b. f_equal. apply IH; [assumption..|].
    now apply Permutation_cons_inv in P.
Qed.

Lemma block_numbers_translate c0 c1 l :
  block_numbers (map (translate c0 c1) l) = block_numbers l.
Proof.
  unfold block_numbers. rewrite map_map. apply map_ext. now intros [[n x] y].
Qed.

(** X9. Sorting keeps every block and lists the blocks by non-decreasing
    block number; and whatever binary64 rounding does to the coordinates,
    the second sort leaves the sequence of block numbers as the first sort
    produced it. *)
Theorem block_number_order (c0 c1 : float) (l : list block) :
  Permutation (sorted l) l
  /\ Sorted Z.le (block_numbers (sorted l))
  /\ block_numbers (sorted (map (translate c0 c1) (sorted l)))
     = block_numbers (sorted l).
Proof.
  split; [apply sorted_perm|]. split; [apply ascending_block_numbers, sorted_ascending|].
  apply sorted_numbers_unique.
  - apply Sorted_StronglySorted; [exact Z.le_trans|].
    apply ascending_block_numbers, sorted_ascending.
  - apply Sorted_StronglySorted; [exact Z.le_trans|].
    apply ascending_block_numbers, sorted_ascending.
  - unfold block_numbers at 1.
    rewrite (Permutation_map _ (sorted_perm (map (translate c0 c1) (sorted l)))).
    fold (block_numbers (map (translate c0 c1) (sorted l))).
    now rewrite block_numbers_translate.
Qed.

(** ** Least and greatest magnitude *)

(** X10. On a non-empty list without NaN the value reported as minimum is
    never larger in magnitude than the value reported as maximum. *)
Theorem min_not_above_max (xs : list float) :
  xs <> [] -> no_nan xs ->
  exists mn mx,
    min_key_abs xs = inr mn /\ max_key_abs xs = inr mx
    /\ PyFloat.key_le mn mx = true.
Proof.
  intros Hne Hn. destruct xs as [|x rest]; [congruence|].
  exists (select_by PyFloat.key_lt x rest), (select_by PyFloat.key_gt x rest).
  split; [reflexivity|]. split; [reflexivity|].
  pose proof (earliest_smallest_is_smallest _ _ Hn (min_key_abs_earliest x rest Hn)) as [_ Hmin].
  pose proof (earliest_largest_is_largest _ _ Hn (max_key_abs_earliest x rest Hn)) as [Hin _].
  now apply Hmin.
Qed.

Lemma min_not_above_max_witness :
  exists mn mx,
    min_key_abs [(-5.0)%float; 3.2%float; (-1.1)%float] = inr mn
    /\ max_key_abs [(-5.0)%float; 3.2%float; (-1.1)%float] = inr mx
    /\ PyFloat.key_le mn mx = true.
Proof.
  apply (min_not_above_max [(-5.0)%float; 3.2%float; (-1.1)%float]);
    [discriminate | repeat constructor].
Defined.

(** ** Range of the stored timestamps *)

Lemma digit_value_range c d : digit_value c = Some d -> 0 <= d <= 9.
Proof.
  unfold digit_value.
  destruct ((48 <=? Z.of_N (N_of_ascii c)) && (Z.of_N (N_of_ascii c) <=? 57)) eqn:E;
    [|discriminate].
  intros H. injection H as <-. apply andb_prop in E. destruct E as [E1 E2].
  apply Z.leb_le in E1. apply Z.leb_le in E2. lia.
Qed.

Lemma digits_value_range s : forall acc v,
    0 <= acc -> digits_value acc s = Some v ->
    0 <= v < (acc + 1) * 10 ^ Z.of_nat (String.length s).
Proof.
  induction s as [|c rest IH]; intros acc v Ha H.
  - injection H as <-. simpl. lia.
  - cbn [digits_value] in H. destruct (digit_value c) as [d|] eqn:Ed; [|discriminate].
    apply digit_value_range in Ed.
    apply IH in H; [|lia].
    cbn [String.length]. rewrite Nat2Z.inj_succ, Z.pow_succ_r by lia.
    assert (0 < 10 ^ Z.of_nat (String.length rest)) by (apply Z.pow_pos_nonneg; lia).
    nia.
Qed.

Lemma field_range w s v : field w s = Some v -> 0 <= v < 10 ^ Z.of_nat w.
Proof.
  unfold field.
  destruct ((0 <? String.length s)%nat && (String.length s <=? w)%nat) eqn:E; [|discriminate].
  intros H. apply digits_value_range in H; [|lia].
  apply andb_prop in E. destruct E as [_ E]. apply Nat.leb_le in E.
  assert (10 ^ Z.of_nat (String.length s) <= 10 ^ Z.of_nat w)
    by (apply Z.pow_le_mono_r; lia).
  lia.
Qed.

Lemma month_of_abbr_range s m : month_of_abbr s = Some m -> 1 <= m <= 12.
Proof.
  unfold month_of_abbr, month_abbr, lookup.
  repeat match goal with
         | |- context [String.eqb ?a ?b] => destruct (String.eqb a b)
         end; intros H; try discriminate; injection H as <-; lia.
Qed.

Lemma days_within_year y m :
  1 <= m <= 12 ->
  0 <= days_before_month y m
  /\ 0 <= days_in_month y m
  /\ days_before_month y m + days_in_month y m
     <= 365 + (if is_leap y then 1 else 0).
Proof.
  intros Hm.
  assert (M : m = 1 \/ m = 2 \/ m = 3 \/ m = 4 \/ m = 5 \/ m = 6 \/ m = 7 \/ m = 8
              \/ m = 9 \/ m = 10 \/ m = 11 \/ m = 12) by lia.
  unfold days_before_month, days_in_month.
  destruct (is_leap y);
    repeat (destruct M as [->|M]); try subst m; cbv; intuition discriminate.
Qed.

Lemma ymd2ord_range y m d :
  1 <= y <= 9999 -> 1 <= m <= 12 -> 1 <= d <= days_in_month y m ->
  1 <= ymd2ord y m d <= MAXORDINAL.
Proof.
  intros Hy Hm Hd. destruct (days_within_year y m Hm) as (B0 & _ & B1).
  assert (Hl : is_leap y = true -> y mod 4 = 0).
  { unfold is_leap. intros H. apply andb_prop in H. destruct H as [H _].
    now apply Z.eqb_eq in H. }
  unfold ymd2ord, days_before_year, MAXORDINAL. cbv zeta.
  destruct (is_leap y); [specialize (Hl eq_refl)|clear Hl];
    Z.div_mod_to_equations; lia.
Qed.

Lemma strptime_whole y m d h mi c :
  strptime y m d h mi = inr c -> whole_minute c.
Proof.
  unfold strptime.
  destruct (field 4 y) as [Y|] eqn:EY; [|discriminate].
  destruct (month_of_abbr m) as [Mo|] eqn:EM; [|discriminate].
  destruct (field 2 d) as [Dd|] eqn:ED; [|discriminate].
  destruct (field 2 h) as [H|] eqn:EH; [|discriminate].
  destruct (field 2 mi) as [Mi|] eqn:EMi; [|discriminate].
  match goal with |- (if ?b then _ else _) = _ -> _ => destruct b eqn:E end; [|discriminate].
  intros R. injection R as <-.
  repeat (apply andb_prop in E; destruct E as [E ?]).
  repeat match goal with
         | L : (_ <=? _) = true |- _ => apply Z.leb_le in L
         end.
  apply field_range in EY, EH, EMi. apply month_of_abbr_range in EM.
  change (10 ^ Z.of_nat 4) with 10000 in EY.
  unfold whole_minute. simpl ordinal. simpl seconds.
  split; [lia|]. split; [Z.div_mod_to_equations; lia|].
  apply ymd2ord_range; lia.
Qed.

Lemma day_transition_whole p c t :
  day_transition p c = inr t -> whole_minute c -> whole_minute t.
Proof.
  unfold day_transition, add_days, whole_minute. intros H (S1 & S2 & O).
  destruct p as [q|]; [destruct (Datetime.lt c q)|]; try (injection H as <-; auto).
  destruct ((1 <=? ordinal c + 1) && (ordinal c + 1 <=? MAXORDINAL)) eqn:E; [|discriminate].
  injection H as <-. apply andb_prop in E. destruct E as [E1 E2].
  apply Z.leb_le in E1. apply Z.leb_le in E2. simpl. auto.
Qed.

Lemma candidates_whole ls : forall vars,
    Forall (fun r => forall c, r = inr c -> whole_minute c) (candidates vars ls).
Proof.
  induction ls as [|l rest IH]; intros vars; simpl; [constructor|].
  destruct (drift_match l) as [g|]; [|apply IH].
  constructor; [|apply IH].
  intros c Hc. unfold candidate in Hc.
  destruct (match datematch l with Some g0 => Some g0 | None => vars end) as [d|];
    [|discriminate].
  now apply strptime_whole in Hc.
Qed.

Lemma day_transitions_whole cands : forall p ts,
    Forall (fun r => forall c, r = inr c -> whole_minute c) cands ->
    day_transitions p cands = inr ts -> Forall whole_minute ts.
Proof.
  induction cands as [|[e|c] rest IH]; intros p ts Hf H.
  - injection H as <-. constructor.
  - discriminate.
  - simpl in H. destruct (day_transition p c) as [|t] eqn:Et; [discriminate|].
    destruct (day_transitions (Some t) rest) as [|ts'] eqn:Er; [discriminate|].
    injection H as <-. inversion Hf as [|? ? Hc Hr]; subst.
    constructor; [|now apply (IH _ _ Hr Er)].
    apply (day_transition_whole _ _ _ Et). now apply Hc.
Qed.

(** X11. Every timestamp a completed scan has stored falls on a whole
    minute of its day (seconds are always 0) and lies within the range of
    [datetime], from 0001-01-01 to 9999-12-31, the day added at midnight
    included. *)
Theorem timestamps_whole_minutes (ls : list line) (out : list event) (s : state) :
  scan initial ls = (out, inr s) -> Forall whole_minute (timestamps s).
Proof.
  intros H. apply scan_timestamps in H. destruct H as (ts & Ht & Hs).
  simpl in Ht, Hs. rewrite Hs.
  apply (day_transitions_whole _ _ _ (candidates_whole ls None) Ht).
Qed.

Lemma timestamps_whole_minutes_witness :
  Forall whole_minute (timestamps midnight_state).
Proof.
  apply (timestamps_whole_minutes midnight_log
           [Print (Centre 75 75); Print (Size 150 150)] midnight_state).
  vm_compute. reflexivity.
Defined.

(** ** Times of day that [strptime] refuses *)

(** X12. Under a bound date, a drift line whose hour, or whose minute, is
    written in the digits 0 to 9 and is longer than two digits or larger
    than 23 (for the minute: 59), stops the scan in [ValueError]; the
    console keeps what was printed up to and including the wafer-centre
    part of that line. *)
Theorem invalid_time_of_day (pre post : list line) (l : line) (g : drift_groups)
        (d : date_groups) (out : list event) (s : state) :
  scan initial pre = (out, inr s) ->
  most_recent_date (pre ++ [l]) = Some d ->
  drift_match l = Some g ->
  parsable l = true ->
  refused 23 (hour g) = true \/ refused 59 (minute g) = true ->
  scan initial (pre ++ l :: post) = (out ++ geometry_prints l, inl ValueError).
Proof.
  intros E Hm Hg Hp Hbad.
  destruct (scan_fields _ _ _ _ E) as (_ & _ & Fd & _). simpl in Fd.
  assert (Fd' : date_vars s = most_recent_date pre)
    by (rewrite Fd; now destruct (most_recent_date pre)).
  rewrite most_recent_date_app in Hm.
  assert (Hc : candidate (date_at (date_vars s) l) g = inl ValueError).
  { rewrite Fd', Hm. unfold candidate, strptime.
    destruct (field 4 (dyear d)); [|reflexivity].
    destruct (month_of_abbr (dmonth d)); [|reflexivity].
    destruct (field 2 (dday d)); [|reflexivity].
    destruct (field 2 (hour g)) as [H|] eqn:EH; [|reflexivity].
    destruct (field 2 (minute g)) as [M|] eqn:EM; [|reflexivity].
    match goal with |- (if ?b then _ else _) = _ => destruct b eqn:B end; [|reflexivity].
    exfalso. repeat (apply andb_prop in B; destruct B as [B ?]).
    repeat match goal with
           | L : (_ <=? _) = true |- _ => apply Z.leb_le in L
           end.
    unfold refused in Hbad. rewrite EH, EM in Hbad.
    destruct Hbad as [R|R]; apply andb_prop in R; destruct R as [_ R];
      apply Z.ltb_lt in R; lia. }
  rewrite scan_app, E. unfold bind at 1. rewrite scan_cons.
  assert (Hl : scan_line s l = (geometry_prints l, inl ValueError)).
  { unfold date_at in Hc.
    unfold scan_line, scan_centre, geometry_prints, parsable in *.
    destruct (centrematch l) as [[[?|] [?|] [?|] [?|]]|]; try discriminate; simpl;
      rewrite scan_drift_eq, Hg; unfold scan_date;
      destruct (datematch l); simpl; simpl in Hc; rewrite Hc; reflexivity. }
  rewrite Hl. reflexivity.
Qed.

Lemma invalid_time_of_day_witness :
  scan initial ([date_line "Nov" "14" "17:30:26" "2024"]
                ++ drift_line "24" "00" 1.5 (-0.5) :: [no_match])
  = ([] ++ geometry_prints (drift_line "24" "00" 1.5 (-0.5)), inl ValueError).
Proof.
  apply (invalid_time_of_day [date_line "Nov" "14" "17:30:26" "2024"] [no_match]
           (drift_line "24" "00" 1.5 (-0.5))
           {| hour := "24"; minute := "00"; dxdt := 1.5; dydt := -0.5 |}
           {| dweek := "Thu"; dmonth := "Nov"; dday := "14"; dtime := "17:30:26";
              dtzone := "AEST"; dyear := "2024" |}
           [] (set_date initial
                 {| dweek := "Thu"; dmonth := "Nov"; dday := "14"; dtime := "17:30:26";
                    dtzone := "AEST"; dyear := "2024" |}));
    try (vm_compute; reflexivity).
  left. vm_compute. reflexivity.
Defined.

(** ** The marker anywhere in the first line *)

Lemma prefix_append p : forall s,
    String.prefix p s = true <-> exists post, s = (p ++ post)%string.
Proof.
  induction p as [|a p' IH]; intros s.
  - split; [intros _; now exists s|intros _; now destruct s].
  - destruct s as [|b s']; simpl.
    + split; [discriminate|intros [post H]; discriminate].
    + destruct (ascii_dec a b) as [->|Hab].
      * rewrite IH. split; intros [post H]; exists post.
        -- now rewrite H.
        -- now injection H.
      * split; [discriminate|]. intros [post H]. injection H as H _. congruence.
Qed.

Lemma contains_append p s :
  contains p s = true <-> exists pre post, s = (pre ++ p ++ post)%string.
Proof.
  induction s as [|c rest IH].
  - rewrite contains_unfold, orb_false_r, prefix_append. split.
    + intros [post H]. now exists EmptyString, post.
    + intros [pre [post H]]. destruct pre; [now exists post|discriminate].
  - rewrite contains_unfold. split.
    + intros H. apply orb_prop in H. destruct H as [H|H].
      * apply prefix_append in H. destruct H as [post H]. now exists EmptyString, post.
      * apply IH in H. destruct H as [pre [post H]].
        exists (String c pre), post. simpl. now rewrite H.
    + intros [pre [post H]]. apply orb_true_iff. destruct pre as [|a pre'].
      * left. apply prefix_append. now exists post.
      * right. apply IH. injection H as _ H. now exists pre', post.
Qed.

(** X13. The header check passes exactly when the marker occurs somewhere
    in the first line as read, at the start or after any other text;
    surrounding whitespace and the line end play no part. *)
Theorem header_accepts_marker_anywhere (f : logfile) :
  header_ok f = true
  <-> exists pre post, first_line f = (pre ++ marker ++ post)%string.
Proof.
  unfold header_ok. rewrite contains_strip. apply contains_append.
Qed.

(** ** Order of the relative coordinates *)

(** X14. The relative coordinates never stand in the reverse order of the
    absolute ones: where the relative x (or y) of one block is below that
    of another, so is its absolute x (or y).  Rounding can only make two
    different coordinates equal. *)
Theorem translation_never_reverses (c0 c1 : float) (a b : block) :
  (PrimFloat.ltb (x_of (translate c0 c1 a)) (x_of (translate c0 c1 b)) = true ->
   PrimFloat.ltb (x_of a) (x_of b) = true)
  /\ (PrimFloat.ltb (y_of (translate c0 c1 a)) (y_of (translate c0 c1 b)) = true ->
      PrimFloat.ltb (y_of a) (y_of b) = true).
Proof.
  destruct a as [[n1 x1] y1], b as [[n2 x2] y2]. unfold translate, x_of, y_of. simpl.
  split; apply FloatSub.sub_ltb.
Qed.

Lemma translation_never_reverses_witness :
  PrimFloat.ltb (x_of (1, 75.5%float, 74%float)) (x_of (2, 80%float, 70%float)) = true
  /\ PrimFloat.ltb (y_of (2, 80%float, 70%float)) (y_of (1, 75.5%float, 74%float)) = true.
Proof.
  split.
  - apply (proj1 (translation_never_reverses 75 75 (1, 75.5%float, 74%float)
                    (2, 80%float, 70%float))).
    vm_compute. reflexivity.
  - apply (proj2 (translation_never_reverses 75 75 (2, 80%float, 70%float)
                    (1, 75.5%float, 74%float))).
    vm_compute. reflexivity.
Defined.
